(** * fastcsv2json++ : the streaming CSV to JSON converter

    A shallow embedding of [src/fastcsv2jsonxx.cpp] (Tokenize, TokenizeLine,
    GetLine, GenerateJson and the delimiter table of ParseArguments) and the
    properties of the conversion pipeline stated over it.

    Conventions of the embedding.
    - [std::string] and [std::string_view] are lists of characters ([str]).
    - [std::array<std::string, MAX_TOKEN_COUNT>] is a list indexed from 0;
      [operator[]] at an index that is not below [MAX_TOKEN_COUNT] is
      undefined behaviour in C++ and is a [fault] here.
    - [unsigned line_counter] is an [N] that wraps at 2^32.
    - the input stream is the list of lines that successive [std::getline]
      calls extract; the output stream is the log of [operator<<] calls.
    - a run either completes ([Done]) or stops at the first fault
      ([Undefined]), which records the state reached at that point. *)

From Stdlib Require Import Ascii String DecimalString.
From Stdlib Require Import List NArith Arith Lia Bool.
Import ListNotations.

Local Open Scope list_scope.

(** ** Strings *)

Definition str := list ascii.

Definition dquote : ascii := "034"%char.
Definition comma : ascii := ","%char.
Definition space : ascii := " "%char.
Definition newline : ascii := "010"%char.
Definition dquote_semi : str := [dquote; ":"%char; dquote].

(** Text of a literal, character by character. *)
Definition txt (s : String.string) : str := String.list_ascii_of_string s.

(** Text of a literal in which every apostrophe stands for a double quote. *)
Definition json (s : String.string) : str :=
  map (fun c => if Ascii.eqb c "'"%char then dquote else c) (txt s).

Arguments txt s%_string.
Arguments json s%_string.

(** [std::string_view::find (c, pos)] for a one-character needle; [None] is
    [npos]. *)
Fixpoint index_of (c : ascii) (s : str) : option nat :=
  match s with
  | [] => None
  | x :: s' => if Ascii.eqb x c then Some 0 else option_map S (index_of c s')
  end.

Definition find (s : str) (c : ascii) (pos : nat) : option nat :=
  option_map (Nat.add pos) (index_of c (skipn pos s)).

(** [substr (pos, len)] and [substr (pos)]; both throw [std::out_of_range]
    when [pos > size ()], which is [None] here. *)
Definition substr (s : str) (pos len : nat) : option str :=
  if length s <? pos then None else Some (firstn len (skipn pos s)).

Definition substr_from (s : str) (pos : nat) : option str :=
  if length s <? pos then None else Some (skipn pos s).

(** [std::string::pop_back]: undefined on the empty string ([None]). *)
Definition pop_back (s : str) : option str :=
  match s with
  | [] => None
  | _ :: _ => Some (removelast s)
  end.

(** [std::ranges::replace (line, old, new)]. *)
Definition replace (line : str) (old new : ascii) : str :=
  map (fun c => if Ascii.eqb c old then new else c) line.

(** [std::erase (line, c)]. *)
Definition erase (line : str) (c : ascii) : str :=
  filter (fun x => negb (Ascii.eqb x c)) line.

(** ** Conversion data *)

Definition MAX_TOKEN_COUNT : nat := 4096.

(** One [operator<<] on the output stream: a single character or a string. *)
Inductive item : Type :=
| put (c : ascii)
| write (s : str).

(** The bytes that a log of insertions leaves in the output. *)
Definition bytes (log : list item) : str :=
  flat_map (fun i => match i with put c => [c] | write s => s end) log.

(** [struct CSV2JSONData].  [in] is threaded separately as the list of lines
    still to be read; the file paths only select the streams and are left
    out.  [header] holds views of the strings of [s_header] and a view is
    represented by its text.  This is exact as long as the header is
    captured once, that is, for the first [UINT_MODULUS] lines of a run: a
    second capture, on the line at which the wrapped line counter is 1
    again, appends to [s_header], which can move its strings and leave the
    older views dangling; the text representation does not show that, so
    the properties stated for whole runs carry a bound on the number of
    lines.  [delimiter] only ever views one of the one-character literals that
    [ParseArguments] assigns (the default is the comma) and is represented
    by that character. *)
Record CData : Type := mkCData {
  out : list item;
  tokens : list str;
  s_header : list str;
  header : list str;
  replacewithspace : list ascii;
  erasechars : list ascii;
  inputline : str;
  outputline : str;
  delimiter : ascii;
  validtokencount : nat;
  line_counter : N
}.

Definition set_out (v : list item) (d : CData) : CData :=
  mkCData v (tokens d) (s_header d) (header d) (replacewithspace d)
    (erasechars d) (inputline d) (outputline d) (delimiter d)
    (validtokencount d) (line_counter d).

Definition set_tokens (v : list str) (d : CData) : CData :=
  mkCData (out d) v (s_header d) (header d) (replacewithspace d)
    (erasechars d) (inputline d) (outputline d) (delimiter d)
    (validtokencount d) (line_counter d).

Definition set_inputline (v : str) (d : CData) : CData :=
  mkCData (out d) (tokens d) (s_header d) (header d) (replacewithspace d)
    (erasechars d) v (outputline d) (delimiter d)
    (validtokencount d) (line_counter d).

Definition set_outputline (v : str) (d : CData) : CData :=
  mkCData (out d) (tokens d) (s_header d) (header d) (replacewithspace d)
    (erasechars d) (inputline d) v (delimiter d)
    (validtokencount d) (line_counter d).

Definition set_line_counter (v : N) (d : CData) : CData :=
  mkCData (out d) (tokens d) (s_header d) (header d) (replacewithspace d)
    (erasechars d) (inputline d) (outputline d) (delimiter d)
    (validtokencount d) v.

(** The three assignments of the header branch of [TokenizeLine]. *)
Definition set_header (sh h : list str) (n : nat) (d : CData) : CData :=
  mkCData (out d) (tokens d) sh h (replacewithspace d)
    (erasechars d) (inputline d) (outputline d) (delimiter d)
    n (line_counter d).

(** A default-initialised [CData] with the configuration that
    [ParseArguments] leaves in it. *)
Definition CData_init (delim : ascii) (rep era : list ascii) : CData :=
  mkCData [] (repeat [] MAX_TOKEN_COUNT) [] [] rep era [] [] delim 0 0%N.

(** The delimiter names of [ParseArguments] ([-d]) and their characters. *)
Inductive delimiter_name : Type :=
| d_pipe | d_comma | d_semicolumn | d_column | d_space | d_tab.

Definition delimiter_of (n : delimiter_name) : ascii :=
  match n with
  | d_pipe => "|"%char
  | d_comma => ","%char
  | d_semicolumn => ";"%char
  | d_column => ":"%char
  | d_space => " "%char
  | d_tab => "009"%char
  end.

(** ** Outcomes *)

Inductive fault : Type :=
| array_index_out_of_range (i : nat)    (* tokens[i] with i >= MAX_TOKEN_COUNT *)
| vector_index_out_of_range (i : nat)   (* header[i] with i >= header.size () *)
| pop_back_on_empty                     (* pop_back () on an empty string *)
| substr_out_of_range                   (* std::out_of_range thrown by substr *)
| fuel_exhausted.                       (* the scan did not end; never happens *)

Inductive result (A : Type) : Type :=
| Done (a : A)
| Undefined (why : fault) (at_state : CData).

Arguments Done {A} a.
Arguments Undefined {A} why at_state.

Definition bind {A B : Type} (r : result A) (k : A -> result B) : result B :=
  match r with
  | Done a => k a
  | Undefined why d => Undefined why d
  end.

Notation "x <- r ;; k" := (bind r (fun x => k))
  (at level 61, r at next level, right associativity).
Notation "' p <- r ;; k" := (bind r (fun x => match x with p => k end))
  (at level 61, p pattern, r at next level, right associativity).

Definition fault_of {A : Type} (r : result A) : option fault :=
  match r with
  | Done _ => None
  | Undefined why _ => Some why
  end.

(** ** Tokenize *)

(** [data.tokens[column] = tok]. *)
Definition assign_token (data : CData) (column : nat) (tok : str)
  : result CData :=
  if column <? MAX_TOKEN_COUNT
  then Done (set_tokens
               (firstn column (tokens data) ++ tok :: skipn (S column) (tokens data))
               data)
  else Undefined (array_index_out_of_range column) data.

(** [data.tokens[column]]. *)
Definition token_at (data : CData) (column : nat) : result str :=
  if column <? MAX_TOKEN_COUNT
  then Done (nth column (tokens data) [])
  else Undefined (array_index_out_of_range column) data.

Definition throwing (data : CData) (o : option str) : result str :=
  match o with
  | Some s => Done s
  | None => Undefined substr_out_of_range data
  end.

(** The [while (end != npos)] loop of [Tokenize].  Every round moves [start]
    past one more character of the line, so a fuel of one more than the
    length of the line is never used up. *)
Fixpoint Tokenize_while (fuel : nat) (data : CData) (start : nat)
    (end_ : option nat) (column : nat) : result (CData * nat * nat) :=
  match end_ with
  | None => Done (data, start, column)
  | Some e =>
    match fuel with
    | 0 => Undefined fuel_exhausted data
    | S fuel' =>
      tok <- throwing data (substr (inputline data) start (e - start)) ;;
      data' <- assign_token data column tok ;;
      let start' := e + 1 in
      Tokenize_while fuel' data' start'
        (find (inputline data') (delimiter data') start') (S column)
    end
  end.

Definition Tokenize (data : CData) : result (CData * nat) :=
  ' (data1, start, column) <-
      Tokenize_while (S (length (inputline data))) data 0
        (find (inputline data) (delimiter data) 0) 0 ;;
  tok <- throwing data1 (substr_from (inputline data1) start) ;;
  data2 <- assign_token data1 column tok ;;
  let column := S column in
  last_tok <- token_at data2 (column - 1) ;;
  match pop_back last_tok with
  | None => Undefined pop_back_on_empty data2
  | Some t =>
    data3 <- assign_token data2 (column - 1) t ;;
    Done (data3, column)
  end.

(** ** TokenizeLine *)

(** The part of [TokenizeLine] after the call of [Tokenize]: the guard on the
    count and the capture of the header on the first line.  The [reserve]
    calls change capacities only.  The capture appends: when the counter is
    1 again after a wrap, [s_header] grows by the tokens of that line and
    [header] by views of all of [s_header] (see [CData] for what the text
    of a view stands for from then on). *)
Definition TokenizeLine_check (data : CData) (ntokens : nat) : CData * nat :=
  if (ntokens =? 0) || (MAX_TOKEN_COUNT <? ntokens) then (data, 0)
  else if (line_counter data =? 1)%N then
    let sh := s_header data ++ firstn ntokens (tokens data) in
    (set_header sh (header data ++ sh) ntokens data, ntokens)
  else (data, ntokens).

Definition TokenizeLine (data : CData) : result (CData * nat) :=
  let data := set_inputline (inputline data ++ [space]) data in
  ' (data, ntokens) <- Tokenize data ;;
  Done (TokenizeLine_check data ntokens).

(** ** GetLine *)

Definition UINT_MODULUS : N := 2 ^ 32.

(** [got] is what [std::getline] extracted, [None] at end of input.  After
    a failed read the content of [inputline] depends on how the input ended
    ([std::getline] empties it when it attempts the extraction and leaves it
    alone when the stream had failed before); the loop ends there without
    reading it again, the model leaves the field as it was, and no property
    below speaks of it. *)
Definition GetLine (got : option str) (data : CData) : CData * nat :=
  let data := set_line_counter ((line_counter data + 1) mod UINT_MODULUS)%N data in
  match got with
  | Some line => (set_inputline line data, length line)
  | None => (data, 0)
  end.

(** ** GenerateJson *)

(** The two filter loops ([-r] and [-e]) at the head of the loop body. *)
Definition GenerateJson_filter (data : CData) : CData :=
  let data :=
    if length (replacewithspace data) =? 0 then data
    else set_inputline
           (fold_left (fun line schar => replace line schar space)
              (replacewithspace data) (inputline data)) data in
  if length (erasechars data) =? 0 then data
  else set_inputline
         (fold_left (fun line echar => erase line echar)
            (erasechars data) (inputline data)) data.

(** [if (data.line_counter > 2) *data.out << comma << '\n';] *)
Definition GenerateJson_separator (data : CData) : CData :=
  if (2 <? line_counter data)%N
  then set_out (out data ++ [put comma; put newline]) data
  else data.

Definition append_outputline (s : str) (data : CData) : CData :=
  set_outputline (outputline data ++ s) data.

(** The [for] loop that builds the record, with [todo] rounds left. *)
Fixpoint GenerateJson_for (todo counter ntokens : nat) (data : CData)
  : result CData :=
  match todo with
  | 0 => Done data
  | S todo' =>
    let data := append_outputline [dquote] data in
    match nth_error (header data) counter with
    | None => Undefined (vector_index_out_of_range counter) data
    | Some h =>
      let data := append_outputline h data in
      let data := append_outputline dquote_semi data in
      tok <- token_at data counter ;;
      let data := append_outputline tok data in
      let data := append_outputline [dquote] data in
      let data :=
        if 1 <? ntokens - counter then append_outputline [comma] data
        else data in
      GenerateJson_for todo' (S counter) ntokens data
    end
  end.

(** The body of [if (data.validtokencount == ntokens)]. *)
Definition GenerateJson_record (data : CData) (ntokens : nat) : result CData :=
  let data := set_outputline ["{"%char] data in
  data <- GenerateJson_for ntokens 0 ntokens data ;;
  let data := append_outputline ["}"%char] data in
  if (1 <? line_counter data)%N
  then Done (set_out (out data ++ [write (outputline data)]) data)
  else Done data.

(** One round of the [while (GetLine (data))] loop, after [GetLine]. *)
Definition GenerateJson_body (data : CData) : result CData :=
  let data := GenerateJson_filter data in
  let data := GenerateJson_separator data in
  ' (data, ntokens) <- TokenizeLine data ;;
  if validtokencount data =? ntokens
  then GenerateJson_record data ntokens
  else Done data.

(** [while (GetLine (data)) { ... }] over the lines still in the stream. *)
Fixpoint GenerateJson_while (input : list str) (data : CData) : result CData :=
  match input with
  | [] => Done (fst (GetLine None data))
  | line :: input' =>
    let (data, size) := GetLine (Some line) data in
    if size =? 0 then Done data
    else data <- GenerateJson_body data ;; GenerateJson_while input' data
  end.

Definition GenerateJson (input : list str) (data : CData) : result CData :=
  let data := set_out (out data ++ [put "["%char]) data in
  data <- GenerateJson_while input data ;;
  Done (set_out (out data ++ [put "]"%char]) data).

(** What the run leaves in the output stream, when it completes. *)
Definition output_of (r : result CData) : option str :=
  match r with
  | Done d => Some (bytes (out d))
  | Undefined _ _ => None
  end.

(** The state an outcome carries: the one returned, or the one in which the
    fault occurred. *)
Definition state_of {A : Type} (proj : A -> CData) (r : result A) : CData :=
  match r with
  | Done a => proj a
  | Undefined _ d => d
  end.

(** The state a run ends in, completed or not. *)
Definition final (r : result CData) : CData := state_of (fun d => d) r.

(** ** The command line: hash, Help, ParseArguments, main *)

Definition programname : str := txt "fastcsv2json++".
Definition VERSION_MAJOR : N := 0.
Definition VERSION_MINOR : N := 1.
Definition VERSION_PATCH : N := 0.

(** [operator<<] of an [unsigned]: its decimal digits. *)
Definition decimal (n : N) : str :=
  txt (NilEmpty.string_of_uint (N.to_uint n)).

(** The value of a [char] after the integral promotion and the conversion
    to [unsigned] that [operator^] applies.  Whether [char] is signed is
    left to the implementation; [char_is_signed] says which. *)
Definition char_value (char_is_signed : bool) (c : ascii) : N :=
  let n := N.of_nat (nat_of_ascii c) in
  if char_is_signed && (128 <=? n)%N
  then (UINT_MODULUS - 256 + n)%N
  else n.

(** [hash (s)]: 5381 at the terminating zero, otherwise
    [(hash (s, off+1) * 33) ^ s[off]] in [unsigned] arithmetic. *)
Fixpoint hash (char_is_signed : bool) (s : str) : N :=
  match s with
  | [] => 5381%N
  | c :: s' =>
    if Ascii.eqb c zero then 5381%N
    else N.lxor ((hash char_is_signed s' * 33) mod UINT_MODULUS)%N
           (char_value char_is_signed c)
  end.

(** What [ParseArguments] works on: the conversion data, the two paths that
    [CData] above leaves out, and what has been written to [std::cerr]. *)
Record Args : Type := mkArgs {
  cdata : CData;
  infilepath : str;
  outfilepath : str;
  cerr : str
}.

Definition set_cdata (v : CData) (a : Args) : Args :=
  mkArgs v (infilepath a) (outfilepath a) (cerr a).

Definition set_infilepath (v : str) (a : Args) : Args :=
  mkArgs (cdata a) v (outfilepath a) (cerr a).

Definition set_outfilepath (v : str) (a : Args) : Args :=
  mkArgs (cdata a) (infilepath a) v (cerr a).

Definition put_cerr (s : str) (a : Args) : Args :=
  mkArgs (cdata a) (infilepath a) (outfilepath a) (cerr a ++ s).

Definition set_delimiter (v : ascii) (d : CData) : CData :=
  mkCData (out d) (tokens d) (s_header d) (header d) (replacewithspace d)
    (erasechars d) (inputline d) (outputline d) v
    (validtokencount d) (line_counter d).

Definition push_replacewithspace (c : ascii) (d : CData) : CData :=
  mkCData (out d) (tokens d) (s_header d) (header d)
    (replacewithspace d ++ [c])
    (erasechars d) (inputline d) (outputline d) (delimiter d)
    (validtokencount d) (line_counter d).

Definition push_erasechars (c : ascii) (d : CData) : CData :=
  mkCData (out d) (tokens d) (s_header d) (header d) (replacewithspace d)
    (erasechars d ++ [c]) (inputline d) (outputline d) (delimiter d)
    (validtokencount d) (line_counter d).

(** [Help]: writes the help screen to [std::cerr] and returns 1. *)
Definition Help_text : str :=
  txt "Usage: "
    ++ programname
    ++ txt " [OPTION]"
    ++ [newline]
    ++ txt "Convert csv to json array"
    ++ [newline]
    ++ [newline]
    ++ txt "Options:"
    ++ [newline]
    ++ [newline]
    ++ txt "-d, --delimiter            Delimiter as pipe, comma, semicolumn, column, space"
    ++ [newline]
    ++ txt "                           or tab. Default is comma"
    ++ [newline]
    ++ txt "-h, --help                 This help screen"
    ++ [newline]
    ++ txt "-i, --infile               Input file path, default STDIN"
    ++ [newline]
    ++ txt "-o, --outfile              Output file path, default STDOUT"
    ++ [newline]
    ++ txt "-r, --replace-with-space   Replace comma, semicolumn, column, tab, backslash,"
    ++ [newline]
    ++ txt "                           lf, cr, dquote, squote and slash characters of input"
    ++ [newline]
    ++ txt "                           with a space. Can be used multiple times"
    ++ [newline]
    ++ txt "-e, --erase-char           Remove comma, semicolumn, column, tab, backslash,"
    ++ [newline]
    ++ txt "                           lf, cr, dquote, squote, slash and space characters"
    ++ [newline]
    ++ txt "                           from input. Can be used multiple times"
    ++ [newline]
    ++ txt "-v, --version              Version information, license and copyright"
    ++ [newline]
    ++ [newline]
    ++ txt "example: "
    ++ programname
    ++ txt " -d pipe < myfile.csv > myfile.json"
    ++ [newline]
    ++ [newline].

Definition Help (a : Args) : Args * N := (put_cerr Help_text a, 1%N).

Definition version_text : str :=
  programname
    ++ [" "%char]
    ++ decimal VERSION_MAJOR
    ++ ["."%char]
    ++ decimal VERSION_MINOR
    ++ ["."%char]
    ++ decimal VERSION_PATCH
    ++ [newline]
    ++ txt "Copyright (C) 2024 Lucas Tsatiris."
    ++ [newline]
    ++ [newline]
    ++ txt "This is free software. You may redistribute copies of it under the terms of"
    ++ [newline]
    ++ txt "the GNU General Public License <https://www.gnu.org/licenses/gpl.html>."
    ++ [newline]
    ++ txt "There is NO WARRANTY, to the extent permitted by law"
    ++ [newline]
    ++ [newline]
    ++ txt "Written by Lucas Tsatiris."
    ++ [newline].

(** [argument.at (counter) == "..."]. *)
Definition is_arg (arg : str) (name : String.string) : bool :=
  if list_eq_dec ascii_dec arg (txt name) then true else false.

Arguments is_arg arg name%_string.

(** A [switch (hash (argv[counter]))] over [case hash ("name")] labels: the
    first entry of the table whose name has the hash of the word. *)
Fixpoint hash_switch (char_is_signed : bool) (word : str)
    (table : list (String.string * ascii)) : option ascii :=
  match table with
  | [] => None
  | (name, c) :: table' =>
    if (hash char_is_signed word =? hash char_is_signed (txt name))%N
    then Some c
    else hash_switch char_is_signed word table'
  end.

Definition backslash : ascii := "092"%char.
Definition squote : ascii := "039"%char.

Definition delimiter_cases : list (String.string * ascii) :=
  [("pipe", "|"%char); ("comma", ","%char); ("semicolumn", ";"%char);
   ("column", ":"%char); ("space", " "%char); ("tab", "009"%char)]%string.

Definition replace_cases : list (String.string * ascii) :=
  [("pipe", "|"%char); ("comma", ","%char); ("semicolumn", ";"%char);
   ("column", ":"%char); ("tab", "009"%char); ("backslash", backslash);
   ("lf", "010"%char); ("cr", "013"%char); ("squote", squote);
   ("dquote", dquote); ("slash", "/"%char)]%string.

Definition erase_cases : list (String.string * ascii) :=
  [("pipe", "|"%char); ("comma", ","%char); ("semicolumn", ";"%char);
   ("column", ":"%char); ("space", " "%char); ("tab", "009"%char);
   ("backslash", backslash); ("lf", "010"%char); ("cr", "013"%char);
   ("squote", squote); ("dquote", dquote); ("slash", "/"%char)]%string.

(** The [while (counter < argc)] loop of [ParseArguments], over the
    arguments from [argv[counter]] on.  An option that takes a value and
    stands last finds [counter == argc] after its [counter ++] and does
    nothing. *)
Fixpoint ParseArguments_while (char_is_signed : bool) (args : list str)
    (a : Args) : Args * N :=
  match args with
  | [] => (a, 0%N)
  | arg :: rest =>
    if is_arg arg "-d" || is_arg arg "--delimiter" then
      match rest with
      | [] => (a, 0%N)
      | v :: rest' =>
        match hash_switch char_is_signed v delimiter_cases with
        | Some c =>
          ParseArguments_while char_is_signed rest'
            (set_cdata (set_delimiter c (cdata a)) a)
        | None => (put_cerr (txt "Unknown delimiter: " ++ v ++ [newline]) a, 1%N)
        end
      end
    else if is_arg arg "-i" || is_arg arg "--infile" then
      match rest with
      | [] => (a, 0%N)
      | v :: rest' =>
        ParseArguments_while char_is_signed rest' (set_infilepath v a)
      end
    else if is_arg arg "-o" || is_arg arg "--outfile" then
      match rest with
      | [] => (a, 0%N)
      | v :: rest' =>
        ParseArguments_while char_is_signed rest' (set_outfilepath v a)
      end
    else if is_arg arg "-r" || is_arg arg "--replace-with-space" then
      match rest with
      | [] => (a, 0%N)
      | v :: rest' =>
        match hash_switch char_is_signed v replace_cases with
        | Some c =>
          ParseArguments_while char_is_signed rest'
            (set_cdata (push_replacewithspace c (cdata a)) a)
        | None => (put_cerr (txt "Unknown character: " ++ v ++ [newline]) a, 1%N)
        end
      end
    else if is_arg arg "-e" || is_arg arg "--erase-char" then
      match rest with
      | [] => (a, 0%N)
      | v :: rest' =>
        match hash_switch char_is_signed v erase_cases with
        | Some c =>
          ParseArguments_while char_is_signed rest'
            (set_cdata (push_erasechars c (cdata a)) a)
        | None => (put_cerr (txt "Unknown character: " ++ v ++ [newline]) a, 1%N)
        end
      end
    else if is_arg arg "-h" || is_arg arg "--help" then Help a
    else if is_arg arg "-v" || is_arg arg "--version" then
      (put_cerr version_text a, 1%N)
    else (put_cerr (txt "Unknown argument: " ++ arg ++ [newline]) a, 1%N)
  end.

(** [ParseArguments (argc, argv, data)]: the loop starts at [argv[1]]. *)
Definition ParseArguments (char_is_signed : bool) (argv : list str)
    (a : Args) : Args * N :=
  ParseArguments_while char_is_signed (tl argv) a.

(** The [CData] that [main] declares, with its member initialisers. *)
Definition Args_init : Args :=
  mkArgs (CData_init ","%char [] []) [] [] [].

(** What [main] finds around it: the lines of standard input, the lines of
    the file behind a path when it can be opened for reading, and whether a
    path can be opened for writing. *)
Record World : Type := mkWorld {
  stdin_lines : list str;
  file_lines : str -> option (list str);
  can_write : str -> bool
}.

(** What a run of [main] leaves behind. *)
Record Exit : Type := mkExit {
  status : N;
  cout : str;
  cerr_text : str;
  written : option (str * str)
}.

(** The stream that [GenerateJson] reads: the file of [-i] when a path is
    given, standard input otherwise.  A file that cannot be opened leaves
    the stream failed, and the first [std::getline] on it fails. *)
Definition input_stream (w : World) (a : Args) : list str :=
  match infilepath a with
  | [] => stdin_lines w
  | _ :: _ =>
    match file_lines w (infilepath a) with
    | Some ls => ls
    | None => []
    end
  end.

(** [main]: the conversion runs only when [ParseArguments] returns 0, and
    then its result, the 0 of [GenerateJson], is the exit status.  The
    output goes to the file of [-o] when a path is given (nowhere when that
    file cannot be opened), to standard output otherwise. *)
Definition main (char_is_signed : bool) (w : World) (argv : list str)
  : result Exit :=
  let (a, res) := ParseArguments char_is_signed argv Args_init in
  if negb (res =? 0)%N then Done (mkExit res [] (cerr a) None)
  else
    d <- GenerateJson (input_stream w a) (cdata a) ;;
    match outfilepath a with
    | [] => Done (mkExit 0%N (bytes (out d)) (cerr a) None)
    | _ :: _ =>
      Done (mkExit 0%N [] (cerr a)
              (if can_write w (outfilepath a)
               then Some (outfilepath a, bytes (out d)) else None))
    end.

(** ** Fields of a line, as the specification words them *)

(** The ordered substrings between the occurrences of the delimiter, with a
    final substring after the last occurrence (the whole line when the
    delimiter does not occur).  This definition follows the specification of
    the Tokenizer, not the code; [Tokenize] is compared with it below. *)
Fixpoint fields (d : ascii) (s : str) : list str :=
  match s with
  | [] => [[]]
  | c :: s' =>
    if Ascii.eqb c d then [] :: fields d s'
    else match fields d s' with
         | f :: fs => (c :: f) :: fs
         | [] => [[c]]
         end
  end.

(** The fields put back together with one delimiter between neighbours. *)
Fixpoint join (d : ascii) (fs : list str) : str :=
  match fs with
  | [] => []
  | [f] => f
  | f :: fs' => f ++ d :: join d fs'
  end.

(** The Character Filter as the specification words it: every character of
    the replace-set becomes a space, then every character of the erase-set
    is removed. *)
Definition in_set (c : ascii) (cs : list ascii) : bool :=
  existsb (Ascii.eqb c) cs.

Definition replace_set (rep : list ascii) (line : str) : str :=
  map (fun c => if in_set c rep then space else c) line.

Definition erase_set (era : list ascii) (line : str) : str :=
  filter (fun c => negb (in_set c era)) line.

Definition filtered (rep era : list ascii) (line : str) : str :=
  erase_set era (replace_set rep line).

(** The members of a JSON object that pairs names with values in order, and
    the object itself, as bytes. *)
Fixpoint json_members (hs vs : list str) : str :=
  match hs, vs with
  | h :: hs', v :: vs' =>
    [dquote] ++ h ++ dquote_semi ++ v ++ [dquote]
      ++ (match vs' with [] => [] | _ :: _ => [comma] end)
      ++ json_members hs' vs'
  | _, _ => []
  end.

Definition json_object (hs vs : list str) : str :=
  ["{"%char] ++ json_members hs vs ++ ["}"%char].

(** ** Notions used to state the properties *)

(** The separator that precedes the work on a line. *)
Definition separator_of (counter : N) : list item :=
  if (2 <? counter)%N then [put comma; put newline] else [].

(** States in which the buffer has its full size and the header covers the
    count that rows are compared with.  The initial state is such a state
    and every completed round keeps it so ([well_formed_init],
    [GenerateJson_body_done]). *)
Definition well_formed (data : CData) : Prop :=
  length (tokens data) = MAX_TOKEN_COUNT
  /\ validtokencount data <= length (header data)
  /\ validtokencount data <= MAX_TOKEN_COUNT.

(** The two insertions that frame the array. *)
Definition is_array_bracket (i : item) : bool :=
  match i with
  | put c => Ascii.eqb c "["%char || Ascii.eqb c "]"%char
  | write _ => false
  end.


(** The faults that are undefined behaviour of the C++ program.  The other
    two constructors of [fault] never occur ([GenerateJson_faults]). *)
Definition is_undefined_behaviour (f : fault) : bool :=
  match f with
  | array_index_out_of_range _ => true
  | vector_index_out_of_range _ => true
  | pop_back_on_empty => true
  | substr_out_of_range => false
  | fuel_exhausted => false
  end.

(** What the rows after the header leave in the output log, the first of
    them being read with the line counter at [counter]: before each row its
    separator, and after it its object when it has as many fields as the
    header has names. *)
Fixpoint rows_log (delim : ascii) (rep era : list ascii) (names : list str)
    (counter : N) (rows : list str) : list item :=
  match rows with
  | [] => []
  | row :: rows' =>
    separator_of counter
      ++ (if length (fields delim (filtered rep era row)) =? length names
          then [write (json_object names (fields delim (filtered rep era row)))]
          else [])
      ++ rows_log delim rep era names (counter + 1)%N rows'
  end.

(** Conversion data as [ParseArguments] can leave it: fresh buffers, a
    delimiter of the [-d] table, replace characters of the [-r] table and
    erase characters of the [-e] table. *)
Definition configured (d : CData) : Prop :=
  exists delim rep era,
    d = CData_init delim rep era
    /\ In delim (map snd delimiter_cases)
    /\ Forall (fun c => In c (map snd replace_cases)) rep
    /\ Forall (fun c => In c (map snd erase_cases)) era.

(** The options that take a value, in both spellings. *)
Definition value_options : list str :=
  [txt "-d"; txt "--delimiter"; txt "-i"; txt "--infile"; txt "-o";
   txt "--outfile"; txt "-r"; txt "--replace-with-space"; txt "-e";
   txt "--erase-char"].

(** The arguments made of options that take a value, each followed by its
    value. *)
Definition option_arguments (pairs : list (str * str)) : list str :=
  flat_map (fun p => [fst p; snd p]) pairs.


(** The concrete scenario of the specification: a header and two rows. *)
Definition scenario_input : list str :=
  [txt "id,name"; txt "1,alpha"; txt "2,beta"].

(** * Properties *)

Lemma MAX_TOKEN_COUNT_pos : 0 < MAX_TOKEN_COUNT.
Proof. apply Nat.lt_0_succ. Qed.

(** The capacity is a number that proofs treat as a whole; only evaluation
    on concrete lines looks inside it. *)
Global Opaque MAX_TOKEN_COUNT.

(** ** Tactics *)

(** Reading a field of a state that setters have built. *)
Ltac fields_simpl :=
  cbn [out tokens s_header header replacewithspace erasechars inputline
       outputline delimiter validtokencount line_counter
       set_out set_tokens set_inputline set_outputline set_line_counter
       set_header].

(** Closes a goal on the header fields from the frame of a step. *)
Ltac header_frame Fh :=
  try congruence;
  try (let L := fresh "L" in
       intro L; destruct (Fh L) as (? & ? & ?); congruence);
  try match goal with
      | L : line_counter _ <> _ |- _ =>
        destruct (Fh L) as (? & ? & ?); congruence
      end.

(** ** Characters and fields *)

Lemma ascii_eqb_false (a b : ascii) : a <> b -> Ascii.eqb a b = false.
Proof. intro H. apply Ascii.eqb_neq. exact H. Qed.

Lemma fields_not_nil (d : ascii) (s : str) : fields d s <> [].
Proof.
  destruct s as [|c s]; simpl; [discriminate|].
  destruct (Ascii.eqb c d); [discriminate|].
  destruct (fields d s); discriminate.
Qed.

Lemma fields_length_le (d : ascii) (s : str) :
  length (fields d s) <= S (length s).
Proof.
  induction s as [|c s IH]; simpl; [lia|].
  destruct (Ascii.eqb c d); simpl; [lia|].
  destruct (fields d s); simpl in *; lia.
Qed.

Lemma fields_length_pos (d : ascii) (s : str) : 1 <= length (fields d s).
Proof.
  pose proof (fields_not_nil d s). destruct (fields d s); simpl; [congruence|lia].
Qed.

Lemma join_fields (d : ascii) (s : str) : join d (fields d s) = s.
Proof.
  induction s as [|c s IH]; [reflexivity|].
  simpl fields. destruct (Ascii.eqb c d) eqn:E.
  - apply Ascii.eqb_eq in E. subst c.
    pose proof (fields_not_nil d s) as Hn.
    simpl. destruct (fields d s) eqn:F; [congruence|].
    simpl. f_equal. exact IH.
  - pose proof (fields_not_nil d s) as Hn.
    destruct (fields d s) as [|f fs] eqn:F; [congruence|].
    destruct fs as [|g fs]; simpl in *; f_equal; exact IH.
Qed.

Lemma fields_app_delim (d : ascii) (s : str) :
  fields d (s ++ [d]) = fields d s ++ [[]].
Proof.
  induction s as [|c s IH]; simpl.
  - rewrite Ascii.eqb_refl. reflexivity.
  - destruct (Ascii.eqb c d); rewrite IH; [reflexivity|].
    pose proof (fields_not_nil d s) as Hn.
    destruct (fields d s); [congruence|reflexivity].
Qed.

Lemma fields_app_other (d c : ascii) (s : str) :
  c <> d ->
  fields d (s ++ [c]) = removelast (fields d s) ++ [last (fields d s) [] ++ [c]].
Proof.
  intro Hc. induction s as [|x s IH]; simpl.
  - rewrite (ascii_eqb_false _ _ Hc). reflexivity.
  - pose proof (fields_not_nil d s) as Hn.
    destruct (Ascii.eqb x d).
    + rewrite IH. destruct (fields d s) as [|f fs]; [congruence|]. reflexivity.
    + rewrite IH. destruct (fields d s) as [|f fs]; [congruence|].
      destruct fs as [|g fs]; reflexivity.
Qed.

Lemma fields_repeat_delim (d : ascii) (n : nat) :
  fields d (repeat d n) = repeat [] (S n).
Proof.
  induction n as [|n IH]; [reflexivity|].
  simpl fields. rewrite Ascii.eqb_refl, IH. reflexivity.
Qed.

Lemma index_of_None_fields (d : ascii) (s : str) :
  index_of d s = None -> fields d s = [s].
Proof.
  induction s as [|c s IH]; [reflexivity|].
  simpl. destruct (Ascii.eqb c d); [discriminate|].
  destruct (index_of d s); [discriminate|].
  intros _. rewrite IH; reflexivity.
Qed.

Lemma index_of_Some_fields (d : ascii) (s : str) (k : nat) :
  index_of d s = Some k ->
  k < length s /\ fields d s = firstn k s :: fields d (skipn (S k) s).
Proof.
  revert k. induction s as [|c s IH]; intros k; [discriminate|].
  simpl index_of. simpl fields. destruct (Ascii.eqb c d).
  - intros [= <-]. simpl. split; [lia|reflexivity].
  - destruct (index_of d s) as [j|]; [|discriminate].
    intros [= <-]. destruct (IH j eq_refl) as [Hj Hf].
    split; [simpl; lia|]. rewrite Hf. reflexivity.
Qed.

(** ** The token buffer *)

Lemma set_tokens_same (data : CData) : set_tokens (tokens data) data = data.
Proof. destruct data; reflexivity. Qed.

Lemma assign_token_at (data : CData) (A B : list str) (x v : str) :
  tokens data = A ++ x :: B ->
  length A < MAX_TOKEN_COUNT ->
  assign_token data (length A) v = Done (set_tokens (A ++ v :: B) data).
Proof.
  intros Ht Hl. unfold assign_token.
  destruct (Nat.ltb_spec (length A) MAX_TOKEN_COUNT) as [_|Hge]; [|lia].
  rewrite Ht, firstn_app, Nat.sub_diag, firstn_all, skipn_app.
  rewrite skipn_all2 by lia.
  replace (S (length A) - length A) with 1 by lia.
  simpl. rewrite app_nil_r. reflexivity.
Qed.

Lemma assign_token_past (data : CData) (column : nat) (v : str) :
  MAX_TOKEN_COUNT <= column ->
  assign_token data column v = Undefined (array_index_out_of_range column) data.
Proof.
  intro H. unfold assign_token.
  destruct (Nat.ltb_spec column MAX_TOKEN_COUNT); [lia|reflexivity].
Qed.

Lemma token_at_app (data : CData) (A B : list str) (x : str) :
  tokens data = A ++ x :: B ->
  length A < MAX_TOKEN_COUNT ->
  token_at data (length A) = Done x.
Proof.
  intros Ht Hl. unfold token_at.
  destruct (Nat.ltb_spec (length A) MAX_TOKEN_COUNT) as [_|Hge]; [|lia].
  rewrite Ht, app_nth2, Nat.sub_diag by lia. reflexivity.
Qed.

(** ** The scan of Tokenize *)

Lemma substr_in_range (s : str) (pos len : nat) :
  pos <= length s -> substr s pos len = Some (firstn len (skipn pos s)).
Proof.
  intro H. unfold substr.
  destruct (Nat.ltb_spec (length s) pos); [lia|reflexivity].
Qed.

Lemma substr_from_in_range (s : str) (pos : nat) :
  pos <= length s -> substr_from s pos = Some (skipn pos s).
Proof.
  intro H. unfold substr_from.
  destruct (Nat.ltb_spec (length s) pos); [lia|reflexivity].
Qed.

Lemma skipn_past_delim (s : str) (start k : nat) :
  skipn (start + k + 1) s = skipn (S k) (skipn start s).
Proof. rewrite skipn_skipn. f_equal. lia. Qed.

(** The loop stores the fields before the last one in consecutive slots and
    leaves [start] at the beginning of the last field, as long as the slots
    it needs exist. *)
Lemma Tokenize_while_done (fuel : nat) :
  forall (data : CData) (start : nat) (A B : list str),
    tokens data = A ++ B ->
    length (A ++ B) = MAX_TOKEN_COUNT ->
    start <= length (inputline data) ->
    length (fields (delimiter data) (skipn start (inputline data))) <= S fuel ->
    length A + length (fields (delimiter data) (skipn start (inputline data)))
      <= S MAX_TOKEN_COUNT ->
    Tokenize_while fuel data start
      (find (inputline data) (delimiter data) start) (length A) =
    Done (set_tokens
            (A ++ removelast (fields (delimiter data) (skipn start (inputline data)))
               ++ skipn (length (fields (delimiter data) (skipn start (inputline data))) - 1) B)
            data,
          length (inputline data)
            - length (last (fields (delimiter data) (skipn start (inputline data))) []),
          length A
            + (length (fields (delimiter data) (skipn start (inputline data))) - 1)).
Proof.
  induction fuel as [|fuel IH]; intros data start A B Ht Hlen Hstart Hfuel Hcap;
    unfold find;
    destruct (index_of (delimiter data) (skipn start (inputline data))) as [k|] eqn:E.
  - apply index_of_Some_fields in E. destruct E as [_ E]. rewrite E in Hfuel.
    pose proof (fields_length_pos (delimiter data)
                  (skipn (S k) (skipn start (inputline data)))).
    cbn [length] in Hfuel. lia.
  - apply index_of_None_fields in E. rewrite E.
    cbn [option_map Tokenize_while removelast length last Nat.sub skipn app].
    rewrite <- Ht, set_tokens_same, length_skipn.
    repeat f_equal; lia.
  - apply index_of_Some_fields in E. destruct E as [Hk E].
    pose proof (fields_length_pos (delimiter data)
                  (skipn (S k) (skipn start (inputline data)))) as Hpos.
    rewrite E in Hfuel, Hcap |- *. cbn [length] in Hfuel, Hcap |- *.
    cbn [Tokenize_while option_map].
    rewrite substr_in_range by exact Hstart.
    replace (start + k - start) with k by lia.
    cbn [throwing bind].
    destruct B as [|x B].
    { rewrite length_app in Hlen. cbn [length] in Hlen. lia. }
    rewrite (assign_token_at data A B x _ Ht) by lia. cbn [bind].
    set (tok := firstn k (skipn start (inputline data))) in *.
    replace (S (length A)) with (length (A ++ [tok]))
      by (rewrite length_app; cbn [length]; lia).
    pose proof (skipn_past_delim (inputline data) start k) as Hs.
    etransitivity.
    { apply (IH (set_tokens (A ++ tok :: B) data) (start + k + 1) (A ++ [tok]) B).
      - cbn [tokens set_tokens]. rewrite <- app_assoc. reflexivity.
      - rewrite <- Hlen, !length_app. cbn [length]. lia.
      - cbn [inputline set_tokens]. rewrite length_skipn in Hk. lia.
      - cbn [inputline delimiter set_tokens]. rewrite Hs. lia.
      - cbn [inputline delimiter set_tokens]. rewrite Hs, length_app.
        cbn [length]. lia. }
    cbn [inputline delimiter set_tokens tokens out s_header header
         replacewithspace erasechars outputline validtokencount line_counter].
    rewrite Hs.
    destruct (fields (delimiter data) (skipn (S k) (skipn start (inputline data))))
      as [|f fs] eqn:F; [cbn [length] in Hpos; lia|].
    rewrite length_app. cbn [length removelast last skipn].
    replace (S (S (length fs)) - 1) with (S (length fs)) by lia.
    replace (S (length fs) - 1) with (length fs) by lia.
    cbn [skipn]. rewrite <- !app_assoc. cbn [app].
    unfold set_tokens.
    cbn [inputline delimiter tokens out s_header header
         replacewithspace erasechars outputline validtokencount line_counter].
    f_equal. f_equal. lia.
  - apply index_of_None_fields in E. rewrite E.
    cbn [option_map Tokenize_while removelast length last Nat.sub skipn app].
    rewrite <- Ht, set_tokens_same, length_skipn.
    repeat f_equal; lia.
Qed.

(** A line with more fields than slots drives the loop to the end of the
    array: the store at index [MAX_TOKEN_COUNT] is reached. *)
Lemma Tokenize_while_overflow (fuel : nat) :
  forall (data : CData) (start column : nat),
    start <= length (inputline data) ->
    column <= MAX_TOKEN_COUNT ->
    length (fields (delimiter data) (skipn start (inputline data))) <= S fuel ->
    S MAX_TOKEN_COUNT
      < column + length (fields (delimiter data) (skipn start (inputline data))) ->
    fault_of (Tokenize_while fuel data start
                (find (inputline data) (delimiter data) start) column)
    = Some (array_index_out_of_range MAX_TOKEN_COUNT).
Proof.
  induction fuel as [|fuel IH]; intros data start column Hstart Hcol Hfuel Hover;
    unfold find;
    destruct (index_of (delimiter data) (skipn start (inputline data))) as [k|] eqn:E.
  - apply index_of_Some_fields in E. destruct E as [_ E]. rewrite E in Hfuel.
    pose proof (fields_length_pos (delimiter data)
                  (skipn (S k) (skipn start (inputline data)))).
    cbn [length] in Hfuel. lia.
  - apply index_of_None_fields in E. rewrite E in Hover. cbn [length] in Hover. lia.
  - apply index_of_Some_fields in E. destruct E as [Hk E].
    rewrite E in Hfuel, Hover. cbn [length] in Hfuel, Hover.
    cbn [Tokenize_while option_map].
    rewrite substr_in_range by exact Hstart. cbn [throwing bind].
    unfold assign_token.
    destruct (Nat.ltb_spec column MAX_TOKEN_COUNT) as [Hlt|Hge]; cbn [bind].
    + pose proof (skipn_past_delim (inputline data) start k) as Hs.
      rewrite length_skipn in Hk.
      apply IH; cbn [inputline delimiter set_tokens]; rewrite ?Hs; lia.
    + cbn [fault_of]. repeat f_equal. lia.
  - apply index_of_None_fields in E. rewrite E in Hover. cbn [length] in Hover. lia.
Qed.

Lemma fields_last_suffix (d : ascii) (s : str) :
  skipn (length s - length (last (fields d s) [])) s = last (fields d s) [].
Proof.
  assert (H : exists p, s = p ++ last (fields d s) []).
  { induction s as [|c s IH]; [exists []; reflexivity|].
    destruct IH as [p Hp]. simpl fields.
    pose proof (fields_not_nil d s) as Hn.
    destruct (Ascii.eqb c d).
    - exists (c :: p). destruct (fields d s) as [|f fs]; [congruence|].
      cbn [last] in *. cbn [app]. f_equal. exact Hp.
    - pose proof (join_fields d s) as J.
      destruct (fields d s) as [|f fs]; [congruence|].
      destruct fs as [|g fs].
      + exists []. cbn [join] in J. cbn [last app]. congruence.
      + exists (c :: p). cbn [last] in *. cbn [app]. f_equal. exact Hp. }
  destruct H as [p Hp].
  remember (last (fields d s) []) as l eqn:Hl. clear Hl. subst s.
  rewrite length_app, Nat.add_sub, skipn_app, Nat.sub_diag, skipn_all.
  reflexivity.
Qed.

(** ** Tokenize, case by case *)

(** Within capacity the buffer receives the fields of the line, the last
    one through [pop_back]. *)
Lemma Tokenize_within (data : CData) :
  length (tokens data) = MAX_TOKEN_COUNT ->
  length (fields (delimiter data) (inputline data)) <= MAX_TOKEN_COUNT ->
  Tokenize data =
  match pop_back (last (fields (delimiter data) (inputline data)) []) with
  | None =>
    Undefined pop_back_on_empty
      (set_tokens
         (removelast (fields (delimiter data) (inputline data))
            ++ last (fields (delimiter data) (inputline data)) []
            :: skipn (length (fields (delimiter data) (inputline data))) (tokens data))
         data)
  | Some t =>
    Done (set_tokens
            (removelast (fields (delimiter data) (inputline data))
               ++ t
               :: skipn (length (fields (delimiter data) (inputline data))) (tokens data))
            data,
          length (fields (delimiter data) (inputline data)))
  end.
Proof.
  intros Hlen Hcap.
  pose proof (fields_length_pos (delimiter data) (inputline data)) as Hpos.
  pose proof (fields_length_le (delimiter data) (inputline data)) as Hle.
  pose proof (Tokenize_while_done (S (length (inputline data))) data 0 []
                (tokens data) eq_refl Hlen (Nat.le_0_l _)) as W.
  cbn [length app skipn Nat.add] in W.
  specialize (W ltac:(lia) ltac:(lia)).
  unfold Tokenize. rewrite W. cbn [bind].
  set (fs := fields (delimiter data) (inputline data)) in *.
  cbn [inputline set_tokens].
  rewrite substr_from_in_range by lia.
  subst fs. rewrite fields_last_suffix.
  set (fs := fields (delimiter data) (inputline data)) in *.
  cbn [throwing bind].
  assert (HA : length (removelast fs) = length fs - 1).
  { destruct (exists_last (fields_not_nil (delimiter data) (inputline data)))
      as [l [a Hl]]. fold fs in Hl.
    rewrite Hl, removelast_last, length_app. cbn [length]. lia. }
  destruct (skipn (length fs - 1) (tokens data)) as [|x B] eqn:EB.
  { apply (f_equal (@length str)) in EB. rewrite length_skipn in EB.
    cbn [length] in EB. lia. }
  assert (HB : B = skipn (length fs) (tokens data)).
  { replace (length fs) with (1 + (length fs - 1)) by lia.
    rewrite <- skipn_skipn, EB. reflexivity. }
  set (d1 := set_tokens (removelast fs ++ x :: B) data).
  assert (Ht1 : tokens d1 = removelast fs ++ x :: B) by reflexivity.
  rewrite <- HA.
  rewrite (assign_token_at d1 (removelast fs) B x _ Ht1) by lia.
  cbn [bind].
  replace (S (length (removelast fs)) - 1) with (length (removelast fs)) by lia.
  set (d2 := set_tokens (removelast fs ++ last fs [] :: B) d1).
  assert (Ht2 : tokens d2 = removelast fs ++ last fs [] :: B) by reflexivity.
  rewrite (token_at_app d2 (removelast fs) B _ Ht2) by lia.
  cbn [bind].
  destruct (pop_back (last fs [])) as [t|] eqn:P.
  - rewrite (assign_token_at d2 (removelast fs) B _ _ Ht2) by lia.
    cbn [bind]. subst d2 d1. rewrite HA, HB.
    replace (S (length fs - 1)) with (length fs) by lia.
    reflexivity.
  - subst d2 d1. rewrite HB. reflexivity.
Qed.

Lemma fault_of_bind {A B : Type} (r : result A) (k : A -> result B) (f : fault) :
  fault_of r = Some f -> fault_of (bind r k) = Some f.
Proof. destruct r; cbn; [discriminate|trivial]. Qed.

(** With more fields than slots, [Tokenize] stores at index
    [MAX_TOKEN_COUNT], one past the last slot of the array. *)
Lemma Tokenize_past_capacity (data : CData) :
  length (tokens data) = MAX_TOKEN_COUNT ->
  MAX_TOKEN_COUNT < length (fields (delimiter data) (inputline data)) ->
  fault_of (Tokenize data) = Some (array_index_out_of_range MAX_TOKEN_COUNT).
Proof.
  intros Hlen Hcap.
  pose proof (fields_length_le (delimiter data) (inputline data)) as Hle.
  unfold Tokenize.
  destruct (Nat.eq_dec (length (fields (delimiter data) (inputline data)))
              (S MAX_TOKEN_COUNT)) as [Heq|Hne].
  - pose proof (Tokenize_while_done (S (length (inputline data))) data 0 []
                  (tokens data) eq_refl Hlen (Nat.le_0_l _)) as W.
    cbn [length app skipn Nat.add] in W.
    specialize (W ltac:(lia) ltac:(lia)).
    rewrite W. cbn [bind inputline set_tokens].
    rewrite substr_from_in_range by lia. cbn [throwing bind].
    rewrite assign_token_past by lia. cbn [bind fault_of].
    repeat f_equal. lia.
  - apply fault_of_bind.
    apply Tokenize_while_overflow; cbn [skipn]; lia.
Qed.

(** ** The scan always ends, and [substr] never throws *)

Lemma GetLine_Some (line : str) (data : CData) :
  GetLine (Some line) data
  = (set_inputline line
       (set_line_counter ((line_counter data + 1) mod UINT_MODULUS)%N data),
     length line).
Proof. reflexivity. Qed.

Lemma Tokenize_while_faults (fuel : nat) :
  forall (data : CData) (start column : nat),
    start <= length (inputline data) ->
    length (fields (delimiter data) (skipn start (inputline data))) <= S fuel ->
    match Tokenize_while fuel data start
            (find (inputline data) (delimiter data) start) column with
    | Done (d', start', _) => start' <= length (inputline d')
    | Undefined f _ => is_undefined_behaviour f = true
    end.
Proof.
  induction fuel as [|fuel IH]; intros data start column Hstart Hfuel;
    unfold find;
    destruct (index_of (delimiter data) (skipn start (inputline data))) as [k|] eqn:E.
  - apply index_of_Some_fields in E. destruct E as [_ E]. rewrite E in Hfuel.
    pose proof (fields_length_pos (delimiter data)
                  (skipn (S k) (skipn start (inputline data)))).
    cbn [length] in Hfuel. lia.
  - cbn [option_map Tokenize_while]. exact Hstart.
  - apply index_of_Some_fields in E. destruct E as [Hk E].
    rewrite E in Hfuel. cbn [length] in Hfuel.
    cbn [Tokenize_while option_map].
    rewrite substr_in_range by exact Hstart. cbn [throwing bind].
    unfold assign_token.
    destruct (column <? MAX_TOKEN_COUNT); cbn [bind]; [|reflexivity].
    pose proof (skipn_past_delim (inputline data) start k) as Hs.
    rewrite length_skipn in Hk.
    apply IH; fields_simpl; rewrite ?Hs; lia.
  - cbn [option_map Tokenize_while]. exact Hstart.
Qed.

Lemma Tokenize_faults (data : CData) (f : fault) :
  fault_of (Tokenize data) = Some f -> is_undefined_behaviour f = true.
Proof.
  unfold Tokenize.
  pose proof (fields_length_le (delimiter data) (inputline data)) as Hle.
  pose proof (Tokenize_while_faults (S (length (inputline data))) data 0 0
                (Nat.le_0_l _)) as W.
  cbn [skipn] in W. specialize (W ltac:(lia)).
  destruct (Tokenize_while _ data 0 _ 0) as [[[d1 st] col]|why d1];
    cbn [bind fault_of].
  2: { intros [= <-]. exact W. }
  rewrite substr_from_in_range by exact W. cbn [throwing bind].
  unfold assign_token, token_at.
  repeat (cbn [bind fault_of];
          try match goal with
              | |- context [if ?a <? ?b then _ else _] => destruct (a <? b)
              | |- context [pop_back ?x] => destruct (pop_back x)
              end);
    intros [= <-]; reflexivity.
Qed.

Lemma GenerateJson_for_faults (todo : nat) :
  forall (counter ntokens : nat) (data : CData) (f : fault),
    fault_of (GenerateJson_for todo counter ntokens data) = Some f ->
    is_undefined_behaviour f = true.
Proof.
  induction todo as [|todo IH]; intros counter ntokens data f;
    cbn [GenerateJson_for fault_of]; [discriminate|].
  destruct (nth_error _ counter); [|intros [= <-]; reflexivity].
  unfold token_at.
  destruct (counter <? MAX_TOKEN_COUNT); cbn [bind fault_of];
    [apply IH|intros [= <-]; reflexivity].
Qed.

Lemma GenerateJson_body_faults (data : CData) (f : fault) :
  fault_of (GenerateJson_body data) = Some f -> is_undefined_behaviour f = true.
Proof.
  unfold GenerateJson_body, TokenizeLine.
  match goal with
  | |- context [Tokenize ?d] =>
    pose proof (Tokenize_faults d f) as T; destruct (Tokenize d) as [[d1 n]|why d1]
  end; cbn [bind fault_of] in *; [|exact T].
  destruct (TokenizeLine_check d1 n) as [d2 m].
  destruct (validtokencount d2 =? m); [|discriminate].
  unfold GenerateJson_record.
  match goal with
  | |- context [GenerateJson_for ?t ?c ?k ?d] =>
    pose proof (GenerateJson_for_faults t c k d f) as R;
      destruct (GenerateJson_for t c k d) as [d3|why d3]
  end; cbn [bind fault_of] in *; [|exact R].
  destruct (1 <? _)%N; discriminate.
Qed.

(** Every fault of a run is undefined behaviour of the program: the scan of
    a line never runs out of fuel and [substr] is always called within the
    line. *)
Lemma GenerateJson_faults (input : list str) :
  forall (data : CData) (f : fault),
    fault_of (GenerateJson input data) = Some f ->
    is_undefined_behaviour f = true.
Proof.
  intros data f. unfold GenerateJson.
  set (d0 := set_out _ data). clearbody d0.
  assert (H : fault_of (GenerateJson_while input d0) = Some f ->
              is_undefined_behaviour f = true).
  { revert d0. induction input as [|line input IH]; intro d0;
      cbn [GenerateJson_while fault_of]; [discriminate|].
    rewrite GetLine_Some.
    destruct (length line =? 0); [discriminate|].
    match goal with
    | |- context [GenerateJson_body ?d] =>
      pose proof (GenerateJson_body_faults d f) as B;
        destruct (GenerateJson_body d) as [d1|why d1]
    end; cbn [bind fault_of] in *; [apply IH|exact B]. }
  destruct (GenerateJson_while input d0); cbn [bind fault_of] in *;
    [discriminate|exact H].
Qed.

(** ** Frames: what each step leaves untouched, fault or not *)

Lemma Tokenize_while_frame (fuel : nat) :
  forall (data : CData) (start : nat) (e : option nat) (column : nat),
    exists T,
      state_of (fun x => fst (fst x)) (Tokenize_while fuel data start e column)
      = set_tokens T data.
Proof.
  induction fuel as [|fuel IH]; intros data start e column;
    destruct e as [e|]; cbn [Tokenize_while state_of fst].
  - exists (tokens data). symmetry. apply set_tokens_same.
  - exists (tokens data). symmetry. apply set_tokens_same.
  - destruct (substr (inputline data) start (e - start)); cbn [throwing bind state_of].
    + unfold assign_token. destruct (column <? MAX_TOKEN_COUNT); cbn [bind state_of].
      * match goal with
        | |- context [Tokenize_while fuel ?d ?s ?x ?c] =>
          destruct (IH d s x c) as [T HT]
        end.
        exists T. rewrite HT. reflexivity.
      * exists (tokens data). symmetry. apply set_tokens_same.
    + exists (tokens data). symmetry. apply set_tokens_same.
  - exists (tokens data). symmetry. apply set_tokens_same.
Qed.

Lemma Tokenize_frame (data : CData) :
  exists T, state_of fst (Tokenize data) = set_tokens T data.
Proof.
  unfold Tokenize.
  match goal with
  | |- context [Tokenize_while ?f ?d ?s ?x ?c] =>
    destruct (Tokenize_while_frame f d s x c) as [T HT];
    destruct (Tokenize_while f d s x c) as [[[d1 st] col]|why d1]
  end; cbn [state_of fst bind] in *.
  2: { exists T. exact HT. }
  subst d1.
  destruct (substr_from _ st); cbn [throwing bind state_of].
  2: { exists T. reflexivity. }
  unfold assign_token, token_at.
  repeat (cbn [bind state_of fst];
          try match goal with
              | |- context [if ?a <? ?b then _ else _] => destruct (a <? b)
              | |- context [pop_back ?x] => destruct (pop_back x)
              end);
    eexists; reflexivity.
Qed.

(** ** TokenizeLine *)

Lemma pop_back_app_one (l : str) (c : ascii) : pop_back (l ++ [c]) = Some l.
Proof.
  unfold pop_back. destruct (l ++ [c]) eqn:E.
  - destruct l; discriminate.
  - rewrite <- E, removelast_last. reflexivity.
Qed.

Lemma fields_sentinel_length (d : ascii) (line : str) :
  d <> space ->
  length (fields d (line ++ [space])) = length (fields d line).
Proof.
  intro Hd. rewrite fields_app_other by congruence.
  destruct (exists_last (fields_not_nil d line)) as [l [a Hl]].
  rewrite Hl, removelast_last, !length_app. reflexivity.
Qed.

(** With a delimiter other than the sentinel and a line within capacity,
    the buffer receives exactly the fields of the line. *)
Lemma TokenizeLine_done (data : CData) :
  delimiter data <> space ->
  length (tokens data) = MAX_TOKEN_COUNT ->
  length (fields (delimiter data) (inputline data)) <= MAX_TOKEN_COUNT ->
  TokenizeLine data =
  Done (TokenizeLine_check
          (set_tokens
             (fields (delimiter data) (inputline data)
                ++ skipn (length (fields (delimiter data) (inputline data)))
                     (tokens data))
             (set_inputline (inputline data ++ [space]) data))
          (length (fields (delimiter data) (inputline data)))).
Proof.
  intros Hd Hlen Hcap. unfold TokenizeLine.
  pose proof (fields_sentinel_length _ (inputline data) Hd) as Hs.
  rewrite Tokenize_within;
    cbn [tokens inputline delimiter set_inputline]; [|exact Hlen|lia].
  rewrite Hs, fields_app_other by congruence.
  rewrite last_last, removelast_last, pop_back_app_one. cbn [bind].
  set (F := fields (delimiter data) (inputline data)).
  assert (HF : removelast F ++ last F [] :: skipn (length F) (tokens data)
               = F ++ skipn (length F) (tokens data)).
  { pose proof (app_removelast_last []
                  (fields_not_nil (delimiter data) (inputline data))) as R.
    fold F in R. rewrite R at 4. rewrite <- app_assoc. reflexivity. }
  rewrite HF. reflexivity.
Qed.

(** A line with more fields than slots makes the store run past the array,
    whatever the delimiter. *)
Lemma TokenizeLine_past_capacity (data : CData) :
  length (tokens data) = MAX_TOKEN_COUNT ->
  MAX_TOKEN_COUNT
    < length (fields (delimiter data) (inputline data ++ [space])) ->
  fault_of (TokenizeLine data)
  = Some (array_index_out_of_range MAX_TOKEN_COUNT).
Proof.
  intros Hlen Hcap. unfold TokenizeLine.
  apply fault_of_bind. apply Tokenize_past_capacity; assumption.
Qed.

(** When the delimiter is the space, the sentinel itself is a delimiter:
    the last token is empty when [pop_back] is applied to it. *)
Lemma TokenizeLine_space_delimiter (data : CData) :
  delimiter data = space ->
  length (tokens data) = MAX_TOKEN_COUNT ->
  length (fields space (inputline data)) < MAX_TOKEN_COUNT ->
  fault_of (TokenizeLine data) = Some pop_back_on_empty.
Proof.
  intros Hd Hlen Hcap. unfold TokenizeLine.
  rewrite Tokenize_within; cbn [tokens inputline delimiter set_inputline];
    rewrite ?Hd, ?fields_app_delim, ?length_app; cbn [length]; [|exact Hlen|lia].
  rewrite last_last. reflexivity.
Qed.

(** A completed [TokenizeLine] tells that the delimiter is not the space and
    that the line fits the buffer. *)
Lemma TokenizeLine_Done_inv (data data' : CData) (n : nat) :
  length (tokens data) = MAX_TOKEN_COUNT ->
  TokenizeLine data = Done (data', n) ->
  delimiter data <> space
  /\ length (fields (delimiter data) (inputline data)) <= MAX_TOKEN_COUNT.
Proof.
  intros Hlen HD.
  assert (Hnf : fault_of (TokenizeLine data) = None) by (rewrite HD; reflexivity).
  destruct (ascii_dec (delimiter data) space) as [Hd|Hd].
  - exfalso.
    destruct (Nat.lt_ge_cases (length (fields space (inputline data)))
                MAX_TOKEN_COUNT) as [Hlt|Hge].
    + rewrite (TokenizeLine_space_delimiter data Hd Hlen Hlt) in Hnf. discriminate.
    + rewrite TokenizeLine_past_capacity in Hnf; [discriminate|exact Hlen|].
      rewrite Hd, fields_app_delim, length_app. cbn [length]. lia.
  - split; [exact Hd|].
    destruct (Nat.le_gt_cases (length (fields (delimiter data) (inputline data)))
                MAX_TOKEN_COUNT) as [Hle|Hgt]; [exact Hle|].
    exfalso. rewrite TokenizeLine_past_capacity in Hnf; [discriminate|exact Hlen|].
    rewrite fields_sentinel_length by exact Hd. exact Hgt.
Qed.

(** [TokenizeLine_check] touches the header only on line 1 and only for a
    count from 1 to [MAX_TOKEN_COUNT]. *)
Lemma TokenizeLine_check_guard (data : CData) (n : nat) :
  n = 0 \/ MAX_TOKEN_COUNT < n -> TokenizeLine_check data n = (data, 0).
Proof.
  intros H. unfold TokenizeLine_check.
  destruct (Nat.eqb_spec n 0) as [|Hn]; [reflexivity|].
  destruct (Nat.ltb_spec MAX_TOKEN_COUNT n); [reflexivity|lia].
Qed.

Lemma TokenizeLine_check_header (data : CData) (n : nat) :
  1 <= n <= MAX_TOKEN_COUNT ->
  line_counter data = 1%N ->
  TokenizeLine_check data n =
  (set_header (s_header data ++ firstn n (tokens data))
     (header data ++ s_header data ++ firstn n (tokens data)) n data, n).
Proof.
  intros H L. unfold TokenizeLine_check.
  destruct (Nat.eqb_spec n 0) as [|Hn]; [lia|].
  destruct (Nat.ltb_spec MAX_TOKEN_COUNT n); [lia|].
  rewrite L. reflexivity.
Qed.

Lemma TokenizeLine_check_row (data : CData) (n : nat) :
  1 <= n <= MAX_TOKEN_COUNT ->
  line_counter data <> 1%N ->
  TokenizeLine_check data n = (data, n).
Proof.
  intros H L. unfold TokenizeLine_check.
  destruct (Nat.eqb_spec n 0) as [|Hn]; [lia|].
  destruct (Nat.ltb_spec MAX_TOKEN_COUNT n); [lia|].
  destruct (N.eqb_spec (line_counter data) 1); [congruence|reflexivity].
Qed.

(** Whatever the outcome, [TokenizeLine] leaves the output, the
    configuration and the line counter alone, and the line buffer holds the
    line followed by the sentinel. *)
Lemma TokenizeLine_frame (data : CData) :
  let d' := state_of fst (TokenizeLine data) in
  out d' = out data
  /\ inputline d' = inputline data ++ [space]
  /\ outputline d' = outputline data
  /\ replacewithspace d' = replacewithspace data
  /\ erasechars d' = erasechars data
  /\ delimiter d' = delimiter data
  /\ line_counter d' = line_counter data
  /\ (line_counter data <> 1%N ->
      s_header d' = s_header data /\ header d' = header data
      /\ validtokencount d' = validtokencount data).
Proof.
  unfold TokenizeLine.
  destruct (Tokenize_frame (set_inputline (inputline data ++ [space]) data))
    as [T HT].
  destruct (Tokenize (set_inputline (inputline data ++ [space]) data))
    as [[d1 n]|why d1]; cbn [state_of fst bind] in *; subst d1.
  - unfold TokenizeLine_check.
    destruct ((n =? 0) || (MAX_TOKEN_COUNT <? n)); cbn [fst].
    + repeat split; reflexivity.
    + cbn [line_counter set_tokens set_inputline].
      destruct (N.eqb_spec (line_counter data) 1) as [L|L]; cbn [fst].
      * repeat split; try reflexivity; intros; congruence.
      * repeat split; reflexivity.
  - repeat split; reflexivity.
Qed.

(** ** The Character Filter refines its specification *)

Lemma fold_replace_set (rep : list ascii) :
  forall line : str,
    fold_left (fun l schar => replace l schar space) rep line
    = replace_set rep line.
Proof.
  induction rep as [|c rep IH]; intro line; cbn [fold_left].
  - unfold replace_set. cbn [in_set existsb]. symmetry. apply map_id.
  - rewrite IH. unfold replace_set, replace. rewrite map_map.
    apply map_ext. intro x. cbn [in_set existsb].
    destruct (Ascii.eqb x c); cbn [orb]; [|reflexivity].
    fold (in_set space rep). destruct (in_set space rep); reflexivity.
Qed.

Lemma fold_erase_set (era : list ascii) :
  forall line : str,
    fold_left (fun l echar => erase l echar) era line = erase_set era line.
Proof.
  induction era as [|c era IH]; intro line; cbn [fold_left].
  - unfold erase_set. cbn [in_set existsb negb].
    induction line as [|x line IHl]; [reflexivity|]. cbn [filter]. f_equal. exact IHl.
  - rewrite IH. unfold erase_set, erase.
    induction line as [|x line IHl]; [reflexivity|].
    cbn [filter in_set existsb].
    destruct (Ascii.eqb x c); cbn [negb orb filter].
    + exact IHl.
    + fold (in_set x era). destruct (in_set x era); cbn [negb]; [|f_equal]; exact IHl.
Qed.

Lemma set_inputline_same (data : CData) :
  set_inputline (inputline data) data = data.
Proof. destruct data; reflexivity. Qed.

Lemma GenerateJson_filter_spec (data : CData) :
  GenerateJson_filter data =
  set_inputline
    (filtered (replacewithspace data) (erasechars data) (inputline data)) data.
Proof.
  unfold GenerateJson_filter, filtered.
  rewrite fold_replace_set.
  assert (E : forall d : CData,
             (if length (erasechars d) =? 0 then d
              else set_inputline
                     (fold_left (fun l echar => erase l echar)
                        (erasechars d) (inputline d)) d)
             = set_inputline (erase_set (erasechars d) (inputline d)) d).
  { intro d. rewrite fold_erase_set.
    destruct (erasechars d) eqn:Ee; cbn [length Nat.eqb]; [|reflexivity].
    rewrite <- Ee, <- (fold_erase_set (erasechars d)), Ee. cbn [fold_left].
    symmetry. apply set_inputline_same. }
  destruct (replacewithspace data) eqn:Er; cbn [length Nat.eqb].
  - rewrite E. unfold replace_set. cbn [in_set existsb]. rewrite map_id. reflexivity.
  - rewrite E. reflexivity.
Qed.

(** ** Building and writing a record *)

Lemma skipn_nth_cons {A : Type} (l : list A) (n : nat) (d : A) :
  n < length l -> skipn n l = nth n l d :: skipn (S n) l.
Proof.
  revert n. induction l as [|x l IH]; intros n H; cbn [length] in H; [lia|].
  destruct n as [|n]; [reflexivity|].
  cbn [skipn nth]. apply IH. lia.
Qed.

Lemma append_outputline_nil (data : CData) : append_outputline [] data = data.
Proof. unfold append_outputline. rewrite app_nil_r. destruct data; reflexivity. Qed.

Lemma append_outputline_twice (a b : str) (data : CData) :
  append_outputline b (append_outputline a data) = append_outputline (a ++ b) data.
Proof. unfold append_outputline, set_outputline. cbn. rewrite app_assoc. reflexivity. Qed.

Lemma header_append_outputline (s : str) (data : CData) :
  header (append_outputline s data) = header data.
Proof. reflexivity. Qed.

Lemma tokens_append_outputline (s : str) (data : CData) :
  tokens (append_outputline s data) = tokens data.
Proof. reflexivity. Qed.

Lemma json_members_nil_r (hs : list str) : json_members hs [] = [].
Proof. destruct hs; reflexivity. Qed.

(** The loop appends the members that pair header [counter], [counter+1],
    ... with the tokens in the same slots. *)
Lemma GenerateJson_for_done (todo : nat) :
  forall (counter ntokens : nat) (data : CData),
    counter + todo = ntokens ->
    ntokens <= MAX_TOKEN_COUNT ->
    ntokens <= length (header data) ->
    ntokens <= length (tokens data) ->
    GenerateJson_for todo counter ntokens data =
    Done (append_outputline
            (json_members (skipn counter (header data))
               (firstn todo (skipn counter (tokens data))))
            data).
Proof.
  induction todo as [|todo IH]; intros counter ntokens data Hc Hmax Hh Ht.
  - cbn [GenerateJson_for firstn].
    rewrite json_members_nil_r, append_outputline_nil. reflexivity.
  - cbn [GenerateJson_for].
    rewrite header_append_outputline.
    rewrite (nth_error_nth' (header data) [] (n := counter)) by lia.
    unfold token_at. rewrite !tokens_append_outputline.
    destruct (Nat.ltb_spec counter MAX_TOKEN_COUNT) as [_|]; [|lia].
    cbn [bind].
    rewrite (skipn_nth_cons (header data) counter []) by lia.
    rewrite (skipn_nth_cons (tokens data) counter []) by lia.
    cbn [firstn json_members].
    replace (ntokens - counter) with (S todo) by lia.
    set (h := nth counter (header data) []).
    set (v := nth counter (tokens data) []).
    rewrite !append_outputline_twice.
    assert (Hcomma :
              (if 1 <? S todo
               then append_outputline
                      ([dquote] ++ h ++ dquote_semi ++ v ++ [dquote] ++ [comma]) data
               else append_outputline
                      ([dquote] ++ h ++ dquote_semi ++ v ++ [dquote]) data)
              = append_outputline
                  ([dquote] ++ h ++ dquote_semi ++ v ++ [dquote]
                     ++ match firstn todo (skipn (S counter) (tokens data)) with
                        | [] => []
                        | _ :: _ => [comma]
                        end) data).
    { destruct todo as [|todo].
      - cbn [Nat.ltb Nat.leb firstn]. rewrite app_nil_r. reflexivity.
      - cbn [Nat.ltb Nat.leb].
        rewrite (skipn_nth_cons (tokens data) (S counter) []) by lia.
        reflexivity. }
    rewrite Hcomma.
    rewrite (IH (S counter) ntokens)
      by (rewrite ?header_append_outputline, ?tokens_append_outputline; lia).
    rewrite header_append_outputline, tokens_append_outputline,
      append_outputline_twice, <- !app_assoc.
    reflexivity.
Qed.

Lemma GenerateJson_for_frame (todo : nat) :
  forall (counter ntokens : nat) (data : CData),
    exists o,
      final (GenerateJson_for todo counter ntokens data) = set_outputline o data.
Proof.
  induction todo as [|todo IH]; intros counter ntokens data;
    cbn [GenerateJson_for].
  - exists (outputline data). destruct data; reflexivity.
  - rewrite header_append_outputline.
    destruct (nth_error (header data) counter) as [h|];
      [|eexists; reflexivity].
    unfold token_at. rewrite tokens_append_outputline.
    destruct (counter <? MAX_TOKEN_COUNT); cbn [bind];
      [|eexists; reflexivity].
    destruct (1 <? ntokens - counter);
      match goal with
      | |- context [GenerateJson_for todo ?c ?n ?d] =>
        destruct (IH c n d) as [o Ho]
      end;
      exists o; (etransitivity; [exact Ho|reflexivity]).
Qed.

(** A record within the header and the buffer is built as the JSON object of
    the header names and the tokens, and written unless on line 0 or 1. *)
Lemma GenerateJson_record_done (data : CData) (ntokens : nat) :
  ntokens <= MAX_TOKEN_COUNT ->
  ntokens <= length (header data) ->
  ntokens <= length (tokens data) ->
  GenerateJson_record data ntokens =
  let obj := json_object (header data) (firstn ntokens (tokens data)) in
  Done (if (1 <? line_counter data)%N
        then set_out (out data ++ [write obj]) (set_outputline obj data)
        else set_outputline obj data).
Proof.
  intros Hmax Hh Ht. unfold GenerateJson_record.
  rewrite (GenerateJson_for_done ntokens 0 ntokens)
    by (cbn [header tokens set_outputline Nat.add]; lia).
  cbn [bind skipn header tokens set_outputline].
  rewrite append_outputline_twice.
  assert (E : append_outputline
                (json_members (header data) (firstn ntokens (tokens data))
                   ++ ["}"%char])
                (set_outputline ["{"%char] data)
              = set_outputline
                  (json_object (header data) (firstn ntokens (tokens data))) data)
    by reflexivity.
  rewrite E. cbn [line_counter out outputline set_outputline].
  destruct (1 <? line_counter data)%N; reflexivity.
Qed.

Lemma GenerateJson_record_frame (data : CData) (ntokens : nat) :
  let d' := final (GenerateJson_record data ntokens) in
  (out d' = out data \/ exists s, out d' = out data ++ [write s])
  /\ (fault_of (GenerateJson_record data ntokens) <> None -> out d' = out data)
  /\ tokens d' = tokens data
  /\ s_header d' = s_header data
  /\ header d' = header data
  /\ inputline d' = inputline data
  /\ replacewithspace d' = replacewithspace data
  /\ erasechars d' = erasechars data
  /\ delimiter d' = delimiter data
  /\ validtokencount d' = validtokencount data
  /\ line_counter d' = line_counter data.
Proof.
  unfold GenerateJson_record.
  destruct (GenerateJson_for_frame ntokens 0 ntokens (set_outputline ["{"%char] data))
    as [o Ho].
  destruct (GenerateJson_for ntokens 0 ntokens (set_outputline ["{"%char] data))
    as [d1|why d1]; unfold final in *; cbn [state_of bind] in *; subst d1.
  - cbn [line_counter append_outputline set_outputline].
    destruct (1 <? line_counter data)%N; cbn.
    + repeat split; try reflexivity; [right; eexists; reflexivity|congruence].
    + repeat split; try reflexivity; left; reflexivity.
  - cbn. repeat split; try reflexivity; left; reflexivity.
Qed.

(** ** One round of the loop *)

Lemma GenerateJson_separator_spec (data : CData) :
  GenerateJson_separator data
  = set_out (out data ++ separator_of (line_counter data)) data.
Proof.
  unfold GenerateJson_separator, separator_of.
  destruct (2 <? line_counter data)%N; [reflexivity|].
  rewrite app_nil_r. destruct data; reflexivity.
Qed.

(** Whatever the line and whatever the outcome of the round: the separator
    goes to the output first and depends on the line counter only, at most
    one record follows it, the line buffer holds the filtered line and the
    sentinel, and away from line 1 the header is left as it was. *)
Lemma GenerateJson_body_frame (data : CData) :
  let d' := final (GenerateJson_body data) in
  (exists rest,
      out d' = out data ++ separator_of (line_counter data) ++ rest
      /\ (rest = [] \/ exists s, rest = [write s])
      /\ (fault_of (GenerateJson_body data) <> None -> rest = []))
  /\ inputline d'
     = filtered (replacewithspace data) (erasechars data) (inputline data)
       ++ [space]
  /\ replacewithspace d' = replacewithspace data
  /\ erasechars d' = erasechars data
  /\ delimiter d' = delimiter data
  /\ line_counter d' = line_counter data
  /\ (line_counter data <> 1%N ->
      s_header d' = s_header data /\ header d' = header data
      /\ validtokencount d' = validtokencount data).
Proof.
  unfold GenerateJson_body.
  rewrite GenerateJson_filter_spec, GenerateJson_separator_spec.
  cbn [out line_counter set_inputline].
  set (d0 := set_out _ _).
  pose proof (TokenizeLine_frame d0) as F. cbv zeta in F.
  destruct (TokenizeLine d0) as [[d1 n]|why d1]; unfold final;
    cbn [state_of fst bind fault_of] in *;
    destruct F as (Fo & Fi & _ & Fr & Fe & Fd & Fl & Fh);
    subst d0; cbn [out inputline replacewithspace erasechars delimiter
                   line_counter s_header header validtokencount
                   set_out set_inputline] in *.
  - destruct (validtokencount d1 =? n).
    + pose proof (GenerateJson_record_frame d1 n) as R. cbv zeta in R.
      unfold final in R.
      destruct R as (Ro & Rf & _ & Rs & Rh & Ri & Rr & Re & Rd & Rv & Rl).
      split; [|repeat split; header_frame Fh].
      destruct Ro as [Ro|[s Ro]].
      * exists []. rewrite app_nil_r. repeat split; [congruence|left; reflexivity].
      * exists [write s]. rewrite Ro, Fo, <- app_assoc.
        repeat split; [right; eexists; reflexivity|].
        intro Hf. specialize (Rf Hf). rewrite Ro in Rf.
        apply (f_equal (@length item)) in Rf. rewrite length_app in Rf.
        cbn [length] in Rf. lia.
    + cbn [state_of fault_of].
      split; [|repeat split; header_frame Fh].
      exists []. rewrite app_nil_r. repeat split; [congruence|left; reflexivity].
  - split; [|repeat split; header_frame Fh].
    exists []. rewrite app_nil_r. repeat split; [congruence|left; reflexivity].
Qed.

(** A round on a line that fits the buffer, with a delimiter other than the
    space, completes; this is what it does. *)
Lemma GenerateJson_body_done (data : CData) :
  well_formed data ->
  delimiter data <> space ->
  let row := filtered (replacewithspace data) (erasechars data) (inputline data) in
  let F := fields (delimiter data) row in
  length F <= MAX_TOKEN_COUNT ->
  exists data',
    GenerateJson_body data = Done data'
    /\ well_formed data'
    /\ firstn (length F) (tokens data') = F
    /\ out data'
       = out data ++ separator_of (line_counter data)
           ++ (if (1 <? line_counter data)%N && (validtokencount data =? length F)
               then [write (json_object (header data) F)] else [])
    /\ (line_counter data = 1%N ->
        s_header data' = s_header data ++ F
        /\ header data' = header data ++ s_header data ++ F
        /\ validtokencount data' = length F).
Proof.
  intros (Wt & Wh & Wm) Hd row F Hcap.
  pose proof (fields_length_pos (delimiter data) row) as Hpos. fold F in Hpos.
  unfold GenerateJson_body.
  rewrite GenerateJson_filter_spec, GenerateJson_separator_spec.
  cbn [out line_counter set_inputline]. fold row.
  set (d0 := set_out _ _).
  assert (Hfirst : firstn (length F) (F ++ skipn (length F) (tokens data)) = F).
  { rewrite firstn_app, Nat.sub_diag, firstn_all. cbn [firstn]. apply app_nil_r. }
  assert (Hlen : length (F ++ skipn (length F) (tokens data)) = MAX_TOKEN_COUNT).
  { rewrite length_app, length_skipn. lia. }
  rewrite (TokenizeLine_done d0); subst d0;
    cbn [tokens inputline delimiter set_out set_inputline];
    fold F; try assumption.
  cbn [bind].
  set (d1 := set_tokens _ _).
  destruct (N.eq_dec (line_counter data) 1) as [L|L].
  - rewrite TokenizeLine_check_header; [|lia|exact L].
    cbn [validtokencount set_header]. rewrite Nat.eqb_refl.
    rewrite GenerateJson_record_done; subst d1; fields_simpl;
      rewrite ?Hfirst, ?length_app, ?length_skipn; try lia.
    rewrite L. cbn [N.ltb N.compare Pos.compare Pos.compare_cont andb separator_of].
    eexists. split; [reflexivity|].
    unfold well_formed. fields_simpl.
    rewrite ?Hfirst, ?length_app, ?length_skipn, ?app_nil_r.
    repeat split; try assumption; try reflexivity; lia.
  - rewrite TokenizeLine_check_row; [|lia|exact L].
    subst d1. fields_simpl.
    destruct (Nat.eqb_spec (validtokencount data) (length F)) as [V|V].
    + rewrite GenerateJson_record_done; fields_simpl; try lia.
      rewrite Hfirst.
      destruct (1 <? line_counter data)%N; cbn [andb];
        (eexists; split; [reflexivity|]);
        unfold well_formed; fields_simpl; rewrite ?app_nil_r, <- ?app_assoc;
        repeat split; try assumption; try reflexivity; try contradiction.
    + rewrite andb_false_r.
      eexists. split; [reflexivity|].
      unfold well_formed. fields_simpl. rewrite ?app_nil_r.
      repeat split; try assumption; try reflexivity; try contradiction.
Qed.

(** Every completed round keeps the state well formed, so every state that
    a run reaches at the head of the loop is well formed. *)
Lemma GenerateJson_body_well_formed (data data' : CData) :
  well_formed data ->
  GenerateJson_body data = Done data' ->
  well_formed data'.
Proof.
  intros W B.
  assert (T : exists d1 n,
             TokenizeLine (GenerateJson_separator (GenerateJson_filter data))
             = Done (d1, n)).
  { unfold GenerateJson_body in B.
    destruct (TokenizeLine (GenerateJson_separator (GenerateJson_filter data)))
      as [[d1 n]|why d1]; [eauto|discriminate]. }
  destruct T as (d1 & n & T).
  rewrite GenerateJson_filter_spec, GenerateJson_separator_spec in T.
  apply TokenizeLine_Done_inv in T; [|apply W].
  destruct T as (Hd & Hfit).
  destruct (GenerateJson_body_done data W Hd Hfit) as (d2 & B2 & W2 & _).
  congruence.
Qed.

(** ** The whole loop *)

Lemma well_formed_init (delim : ascii) (rep era : list ascii) :
  well_formed (CData_init delim rep era).
Proof.
  unfold well_formed, CData_init. fields_simpl.
  rewrite repeat_length. cbn [length]. repeat split; lia.
Qed.

Lemma final_bind (r : result CData) (k : CData -> result CData) :
  final (bind r k)
  = match r with
    | Done d => final (k d)
    | Undefined _ d => d
    end.
Proof. destruct r; reflexivity. Qed.

Lemma separator_of_no_bracket (n : N) :
  Forall (fun i => is_array_bracket i = false) (separator_of n).
Proof.
  unfold separator_of. destruct (2 <? n)%N; repeat constructor.
Qed.

(** With a delimiter other than the space and lines that fit the buffer,
    the loop runs to the end of the input (or to the first empty line),
    keeps the state well formed and only appends separators and records. *)
Lemma GenerateJson_while_done (input : list str) :
  forall data : CData,
    well_formed data ->
    delimiter data <> space ->
    Forall (fun l =>
              length (fields (delimiter data)
                        (filtered (replacewithspace data) (erasechars data) l))
              <= MAX_TOKEN_COUNT) input ->
    exists data' mid,
      GenerateJson_while input data = Done data'
      /\ out data' = out data ++ mid
      /\ Forall (fun i => is_array_bracket i = false) mid
      /\ well_formed data'.
Proof.
  induction input as [|line input IH]; intros data W Hd Hfit.
  - cbn [GenerateJson_while GetLine fst].
    eexists; exists []. rewrite app_nil_r.
    repeat split; try reflexivity; try constructor; apply W.
  - cbn [GenerateJson_while]. rewrite GetLine_Some.
    set (d1 := set_inputline line _).
    destruct (Nat.eqb_spec (length line) 0) as [E|E].
    + exists d1, []. rewrite app_nil_r.
      repeat split; try reflexivity; try constructor; apply W.
    + inversion Hfit as [|l ls Hl Hls]; subst l ls.
      assert (W1 : well_formed d1) by exact W.
      destruct (GenerateJson_body_done d1 W1 Hd Hl)
        as (d2 & B & W2 & _ & O2 & _).
      pose proof (GenerateJson_body_frame d1) as Fr. cbv zeta in Fr.
      rewrite B in Fr. unfold final in Fr. cbn [state_of] in Fr.
      destruct Fr as (_ & _ & Fr & Fe & Fd & _ & _).
      rewrite B. cbn [bind].
      destruct (IH d2 W2) as (d3 & mid & L3 & O3 & M3 & W3).
      * rewrite Fd. exact Hd.
      * rewrite Fr, Fe, Fd. exact Hls.
      * exists d3. eexists. split; [exact L3|].
        split; [rewrite O3, O2, <- !app_assoc; reflexivity|].
        split; [|exact W3].
        apply Forall_app. split; [apply separator_of_no_bracket|].
        apply Forall_app. split; [|exact M3].
        destruct (_ && _); repeat constructor.
Qed.




Lemma filtered_nil (line : str) : filtered [] [] line = line.
Proof.
  unfold filtered, erase_set, replace_set. cbn [in_set existsb negb].
  rewrite map_id. induction line as [|x l IH]; [reflexivity|].
  cbn [filter]. f_equal. exact IH.
Qed.

(** A round on a line with more fields than the buffer has slots stores
    past the buffer. *)
Lemma GenerateJson_body_past_capacity (data : CData) :
  length (tokens data) = MAX_TOKEN_COUNT ->
  delimiter data <> space ->
  MAX_TOKEN_COUNT
    < length (fields (delimiter data)
                (filtered (replacewithspace data) (erasechars data)
                   (inputline data))) ->
  fault_of (GenerateJson_body data)
  = Some (array_index_out_of_range MAX_TOKEN_COUNT).
Proof.
  intros Hlen Hd Hover. unfold GenerateJson_body.
  rewrite GenerateJson_filter_spec, GenerateJson_separator_spec.
  apply fault_of_bind. apply TokenizeLine_past_capacity; fields_simpl.
  - exact Hlen.
  - rewrite fields_sentinel_length by exact Hd. exact Hover.
Qed.

(** A run that reaches such a line, after non-empty lines that fit, ends in
    that fault, whatever follows the line. *)
Lemma GenerateJson_while_past_capacity (pre : list str) :
  forall (line : str) (post : list str) (data : CData),
    well_formed data ->
    delimiter data <> space ->
    Forall (fun l =>
              l <> []
              /\ length (fields (delimiter data)
                           (filtered (replacewithspace data) (erasechars data) l))
                 <= MAX_TOKEN_COUNT) pre ->
    MAX_TOKEN_COUNT
      < length (fields (delimiter data)
                  (filtered (replacewithspace data) (erasechars data) line)) ->
    fault_of (GenerateJson_while (pre ++ line :: post) data)
    = Some (array_index_out_of_range MAX_TOKEN_COUNT).
Proof.
  induction pre as [|l pre IH]; intros line post data W Hd Hpre Hover;
    cbn [app GenerateJson_while]; rewrite GetLine_Some.
  - assert (Hne : length line <> 0).
    { intro E. apply length_zero_iff_nil in E. subst line.
      pose proof (fields_length_le (delimiter data)
                    (filtered (replacewithspace data) (erasechars data) [])) as Hle.
      assert (Hf : filtered (replacewithspace data) (erasechars data) [] = [])
        by reflexivity.
      rewrite Hf in *. cbn [length] in *.
      pose proof MAX_TOKEN_COUNT_pos. lia. }
    destruct (Nat.eqb_spec (length line) 0) as [E|_]; [contradiction|].
    apply fault_of_bind. apply GenerateJson_body_past_capacity; fields_simpl.
    + apply W.
    + exact Hd.
    + exact Hover.
  - inversion Hpre as [|x xs [Hl Hfit] Hrest]; subst x xs.
    destruct (Nat.eqb_spec (length l) 0) as [E|_].
    { apply length_zero_iff_nil in E. contradiction. }
    set (d1 := set_inputline l _).
    assert (W1 : well_formed d1) by exact W.
    destruct (GenerateJson_body_done d1 W1 Hd Hfit) as (d2 & B & W2 & _).
    pose proof (GenerateJson_body_frame d1) as Fr. cbv zeta in Fr.
    rewrite B in Fr. unfold final in Fr. cbn [state_of] in Fr.
    destruct Fr as (_ & _ & Fr & Fe & Fd & _ & _).
    rewrite B. cbn [bind].
    apply IH; rewrite ?Fr, ?Fe, ?Fd; assumption.
Qed.

Lemma GenerateJson_past_capacity (pre : list str) (line : str)
    (post : list str) (delim : ascii) :
  delim <> space ->
  Forall (fun l => l <> [] /\ length (fields delim l) <= MAX_TOKEN_COUNT) pre ->
  MAX_TOKEN_COUNT < length (fields delim line) ->
  fault_of (GenerateJson (pre ++ line :: post) (CData_init delim [] []))
  = Some (array_index_out_of_range MAX_TOKEN_COUNT).
Proof.
  intros Hd Hpre Hover. unfold GenerateJson. apply fault_of_bind.
  apply GenerateJson_while_past_capacity; fields_simpl.
  - apply (well_formed_init delim [] []).
  - exact Hd.
  - eapply Forall_impl; [|exact Hpre].
    intros l [Hl Hf]. rewrite filtered_nil. split; assumption.
  - rewrite filtered_nil. exact Hover.
Qed.

(** While the counter does not come back to 1, no round touches the header;
    the counter cannot come back to 1 within 2^32 - 2 further lines. *)
Lemma GenerateJson_while_header (input : list str) :
  forall data : CData,
    (1 <= line_counter data)%N ->
    (line_counter data + N.of_nat (length input) < UINT_MODULUS - 1)%N ->
    s_header (final (GenerateJson_while input data)) = s_header data
    /\ header (final (GenerateJson_while input data)) = header data
    /\ validtokencount (final (GenerateJson_while input data))
       = validtokencount data.
Proof.
  change UINT_MODULUS with 4294967296%N.
  induction input as [|line input IH]; intros data H1 Hlt.
  - cbn [GenerateJson_while GetLine fst]. repeat split; reflexivity.
  - cbn [GenerateJson_while]. rewrite GetLine_Some.
    change UINT_MODULUS with 4294967296%N.
    cbn [length] in Hlt.
    rewrite N.mod_small by lia.
    set (d1 := set_inputline line _).
    destruct (length line =? 0); [repeat split; reflexivity|].
    rewrite final_bind.
    pose proof (GenerateJson_body_frame d1) as Fr. cbv zeta in Fr.
    destruct Fr as (_ & _ & _ & _ & _ & Fl & Fh).
    assert (L1 : line_counter d1 = (line_counter data + 1)%N) by reflexivity.
    destruct (Fh ltac:(lia)) as (Hs & Hh & Hv).
    destruct (GenerateJson_body d1) as [d2|why d2]; unfold final in *;
      cbn [state_of] in *.
    + destruct (IH d2) as (Is & Ih & Iv); [lia|lia|].
      unfold final in *. subst d1.
      cbn [s_header header validtokencount set_inputline set_line_counter] in *.
      repeat split; congruence.
    + repeat split; assumption.
Qed.

(** A fault of [TokenizeLine] comes from [Tokenize], before the header
    branch: the header is as it was. *)
Lemma TokenizeLine_fault_header (data : CData) :
  fault_of (TokenizeLine data) <> None ->
  s_header (state_of fst (TokenizeLine data)) = s_header data
  /\ header (state_of fst (TokenizeLine data)) = header data
  /\ validtokencount (state_of fst (TokenizeLine data)) = validtokencount data.
Proof.
  unfold TokenizeLine.
  destruct (Tokenize_frame (set_inputline (inputline data ++ [space]) data))
    as [T HT].
  destruct (Tokenize (set_inputline (inputline data ++ [space]) data))
    as [[d1 n]|why d1]; cbn [state_of fst bind fault_of] in *.
  - congruence.
  - intros _. subst d1. repeat split; reflexivity.
Qed.



(** * The scenarios and the properties of the specification *)

(** C1, as stated, does not hold: for the three lines id,name / 1,alpha /
    2,beta with the comma delimiter and empty replace and erase sets, the
    output is not the text with only a comma between the two objects. *)
Lemma C1_single_comma_output_refuted :
  output_of (GenerateJson scenario_input (CData_init ","%char [] []))
  <> Some (json "[{'id':'1','name':'alpha'},{'id':'2','name':'beta'}]").
Proof. vm_compute. intro H. discriminate H. Qed.

(** C1, amended: for that input the program writes exactly the first
    object, a comma, a newline, and the second object between one opening
    and one closing bracket; no trailing comma and no other characters. *)
Theorem C1_scenario_output :
  output_of (GenerateJson scenario_input (CData_init ","%char [] []))
  = Some (json "[{'id':'1','name':'alpha'},"
            ++ [newline] ++ json "{'id':'2','name':'beta'}]").
Proof. vm_compute. reflexivity. Qed.

(** C2: the claim fails on the code.  On a line of [MAX_TOKEN_COUNT] commas
    (one field more than the buffer has slots) [Tokenize] stores at index
    [MAX_TOKEN_COUNT], past the end of the array; the count is compared with
    the capacity only after [Tokenize] has returned. *)
Theorem C2_store_past_the_token_buffer :
  fault_of
    (TokenizeLine
       (fst (GetLine (Some (repeat ","%char MAX_TOKEN_COUNT))
               (CData_init ","%char [] []))))
  = Some (array_index_out_of_range MAX_TOKEN_COUNT).
Proof.
  apply TokenizeLine_past_capacity.
  - cbn [GetLine fst]. fields_simpl. apply repeat_length.
  - cbn [GetLine fst]. fields_simpl.
    rewrite fields_sentinel_length by discriminate.
    rewrite fields_repeat_delim, repeat_length. lia.
Qed.

(** C3, as stated, does not hold: a first line with more fields than the
    buffer has slots is not taken as the header.  [Tokenize] faults on it
    with the header still empty, and the guard of [TokenizeLine] returns 0
    without touching the header for a count of zero or above the capacity. *)
Lemma C3_oversized_header_not_captured :
  let data :=
    fst (GetLine (Some (repeat ";"%char MAX_TOKEN_COUNT))
           (CData_init ";"%char [] [])) in
  line_counter data = 1%N
  /\ fault_of (TokenizeLine data)
     = Some (array_index_out_of_range MAX_TOKEN_COUNT)
  /\ header (state_of fst (TokenizeLine data)) = []
  /\ validtokencount (state_of fst (TokenizeLine data)) = 0
  /\ TokenizeLine_check data (S MAX_TOKEN_COUNT) = (data, 0)
  /\ TokenizeLine_check data 0 = (data, 0).
Proof.
  cbv zeta.
  set (data := fst (GetLine _ _)).
  assert (Hf : fault_of (TokenizeLine data)
               = Some (array_index_out_of_range MAX_TOKEN_COUNT)).
  { apply TokenizeLine_past_capacity; subst data; cbn [GetLine fst]; fields_simpl.
    - apply repeat_length.
    - rewrite fields_sentinel_length by discriminate.
      rewrite fields_repeat_delim, repeat_length. lia. }
  destruct (TokenizeLine_fault_header data) as (_ & Hh & Hv).
  { rewrite Hf. discriminate. }
  refine (conj _ (conj Hf (conj _ (conj _ (conj _ _))))).
  - subst data. cbn [GetLine fst]. fields_simpl. reflexivity.
  - rewrite Hh. subst data. cbn [GetLine fst]. fields_simpl. reflexivity.
  - rewrite Hv. subst data. cbn [GetLine fst]. fields_simpl. reflexivity.
  - apply TokenizeLine_check_guard. right. lia.
  - apply TokenizeLine_check_guard. left. reflexivity.
Qed.

(** C3, amended: when the delimiter is not the space and the filtered first
    line is not empty and has at most [MAX_TOKEN_COUNT] fields, its fields
    are captured verbatim as the header without further validation, their
    count becomes the count that later lines are compared with, and no
    later line changes the header, for every continuation of the input of
    fewer than 2^32 - 2 lines, completed or not. *)
Theorem C3_header_capture (delim : ascii) (rep era : list ascii)
    (line : str) (rest : list str) :
  delim <> space ->
  line <> [] ->
  length (fields delim (filtered rep era line)) <= MAX_TOKEN_COUNT ->
  (N.of_nat (length rest) < UINT_MODULUS - 2)%N ->
  let d := final (GenerateJson (line :: rest) (CData_init delim rep era)) in
  header d = fields delim (filtered rep era line)
  /\ s_header d = fields delim (filtered rep era line)
  /\ validtokencount d = length (fields delim (filtered rep era line))
  /\ 1 <= validtokencount d <= MAX_TOKEN_COUNT.
Proof.
  intros Hd Hline Hfit Hrest. cbv zeta.
  pose proof (fields_length_pos delim (filtered rep era line)) as Hpos.
  unfold GenerateJson. rewrite final_bind.
  cbn [GenerateJson_while]. rewrite GetLine_Some.
  set (d1 := set_inputline line _).
  destruct (Nat.eqb_spec (length line) 0) as [E|E].
  { destruct line; [congruence|discriminate]. }
  assert (W1 : well_formed d1) by apply (well_formed_init delim rep era).
  destruct (GenerateJson_body_done d1 W1 Hd Hfit) as (d2 & B & _ & _ & _ & C).
  destruct (C eq_refl) as (Cs & Ch & Cv).
  pose proof (GenerateJson_body_frame d1) as Fr. cbv zeta in Fr.
  rewrite B in Fr. unfold final in Fr. cbn [state_of] in Fr.
  destruct Fr as (_ & _ & _ & _ & _ & Fl & _).
  rewrite B. cbn [bind].
  assert (L1 : line_counter d1 = 1%N) by reflexivity.
  assert (S1 : s_header d1 = []) by reflexivity.
  assert (H1 : header d1 = []) by reflexivity.
  assert (R1 : replacewithspace d1 = rep) by reflexivity.
  assert (E1 : erasechars d1 = era) by reflexivity.
  assert (D1 : delimiter d1 = delim) by reflexivity.
  assert (I1 : inputline d1 = line) by reflexivity.
  rewrite ?S1, ?H1, ?R1, ?E1, ?D1, ?I1 in Cs, Ch, Cv. cbn [app] in Cs, Ch.
  destruct (GenerateJson_while_header rest d2) as (Ws & Wh & Wv).
  { rewrite Fl, L1. lia. }
  { rewrite Fl, L1. change UINT_MODULUS with 4294967296%N in *. lia. }
  destruct (GenerateJson_while rest d2) as [d3|why d3]; unfold final in *;
    cbn [state_of] in *; fields_simpl;
    rewrite ?Wh, ?Ws, ?Wv, ?Ch, ?Cs, ?Cv;
    (split; [reflexivity|split; [reflexivity|split; [reflexivity|lia]]]).
Qed.

(** The amended C3 at the scenario input: the hypotheses hold there and the
    header is the pair of names of the first line. *)
Lemma C3_header_capture_witness :
  (","%char <> space
   /\ txt "id,name" <> []
   /\ length (fields ","%char (filtered [] [] (txt "id,name"))) <= MAX_TOKEN_COUNT
   /\ (N.of_nat (length [txt "1,alpha"; txt "2,beta"]) < UINT_MODULUS - 2)%N)
  /\ let d := final (GenerateJson scenario_input (CData_init ","%char [] [])) in
     header d = fields ","%char (filtered [] [] (txt "id,name"))
     /\ s_header d = fields ","%char (filtered [] [] (txt "id,name"))
     /\ validtokencount d
        = length (fields ","%char (filtered [] [] (txt "id,name")))
     /\ 1 <= validtokencount d <= MAX_TOKEN_COUNT.
Proof.
  assert (H1 : ","%char <> space) by discriminate.
  assert (H2 : txt "id,name" <> []) by discriminate.
  assert (H3 : length (fields ","%char (filtered [] [] (txt "id,name")))
               <= MAX_TOKEN_COUNT)
    by (apply Nat.leb_le; vm_compute; reflexivity).
  assert (H4 : (N.of_nat (length [txt "1,alpha"; txt "2,beta"])
                < UINT_MODULUS - 2)%N)
    by (vm_compute; reflexivity).
  split; [exact (conj H1 (conj H2 (conj H3 H4)))|].
  exact (C3_header_capture ","%char [] [] (txt "id,name")
           [txt "1,alpha"; txt "2,beta"] H1 H2 H3 H4).
Defined.

(** C4: the claim fails on the code.  For the lines a, 1, an empty line
    and 2 the empty line is the third line read, so its line counter is 3
    and the claim has a comma and a newline written for it.  The code ends
    the loop on it before the separator is written: the output is the array
    of the one record with nothing after it, and the line counter is left
    at 3.  A non-blank line of another field count in the same place does
    get its separator, and so does the line after it. *)
Theorem C4_blank_line_gets_no_separator :
  output_of (GenerateJson [txt "a"; txt "1"; txt ""; txt "2"]
               (CData_init ","%char [] []))
  = Some (json "[{'a':'1'}]")
  /\ line_counter (final (GenerateJson [txt "a"; txt "1"; txt ""; txt "2"]
                            (CData_init ","%char [] [])))
     = 3%N
  /\ output_of (GenerateJson [txt "a"; txt "1"; txt "x,y"; txt "2"]
                  (CData_init ","%char [] []))
     = Some (json "[{'a':'1'}," ++ [newline] ++ txt "," ++ [newline]
               ++ json "{'a':'2'}]").
Proof.
  split; [vm_compute; reflexivity|].
  split; vm_compute; reflexivity.
Qed.

(** C5: the claim fails on the code.  A blank second line (a row whose field
    count differs from the two of the header) ends the loop, so the valid
    row after it is never processed and the output is the empty array,
    whereas a non-blank row of one field in the same place is dropped and
    the row after it is written.  A row with more fields than the buffer
    has slots is not dropped either: the run faults on it. *)
Theorem C5_blank_row_ends_processing :
  output_of (GenerateJson [txt "a,b"; txt ""; txt "1,2"]
               (CData_init ","%char [] []))
  = Some (txt "[]")
  /\ output_of (GenerateJson [txt "a,b"; txt "x"; txt "1,2"]
                  (CData_init ","%char [] []))
     = Some (txt "[," ++ [newline] ++ json "{'a':'1','b':'2'}]")
  /\ fault_of (GenerateJson [txt "a,b"; repeat ","%char MAX_TOKEN_COUNT; txt "1,2"]
                 (CData_init ","%char [] []))
     = Some (array_index_out_of_range MAX_TOKEN_COUNT).
Proof.
  split; [vm_compute; reflexivity|].
  split; [vm_compute; reflexivity|].
  apply (GenerateJson_past_capacity [txt "a,b"]).
  - discriminate.
  - repeat constructor; [discriminate|].
    apply Nat.leb_le. vm_compute. reflexivity.
  - rewrite fields_repeat_delim, repeat_length. lia.
Qed.

(** C6: the claim fails on the code.  For the lines a, an empty line and 1
    under the comma delimiter, the second line is a data row of one field,
    the empty one, which is the field count of the header; the claim has it
    written as the object that pairs the name a with the empty value.  The
    code ends the loop on the empty line: no object is written for it nor
    for the row after it, and the output is the empty array.  A non-blank
    row in the same place is written, and so is the row after it. *)
Theorem C6_blank_row_gets_no_object :
  length (fields ","%char (filtered [] [] (txt "")))
  = length (fields ","%char (filtered [] [] (txt "a")))
  /\ json_object (fields ","%char (filtered [] [] (txt "a")))
       (fields ","%char (filtered [] [] (txt "")))
     = json "{'a':''}"
  /\ output_of (GenerateJson [txt "a"; txt ""; txt "1"]
                  (CData_init ","%char [] []))
     = Some (txt "[]")
  /\ output_of (GenerateJson [txt "a"; txt "x"; txt "1"]
                  (CData_init ","%char [] []))
     = Some (json "[{'a':'x'}," ++ [newline] ++ json "{'a':'1'}]").
Proof.
  split; [reflexivity|].
  split; [vm_compute; reflexivity|].
  split; vm_compute; reflexivity.
Qed.




(** C8, as stated, does not hold: a line of [MAX_TOKEN_COUNT] delimiter
    characters does not yield [MAX_TOKEN_COUNT + 1] empty fields; the store
    of the last of them falls outside the buffer. *)
Lemma C8_delimiter_only_line_refuted :
  fault_of
    (TokenizeLine
       (set_inputline (repeat "|"%char MAX_TOKEN_COUNT)
          (CData_init "|"%char [] [])))
  = Some (array_index_out_of_range MAX_TOKEN_COUNT).
Proof.
  apply TokenizeLine_past_capacity; fields_simpl.
  - apply repeat_length.
  - rewrite fields_sentinel_length by discriminate.
    rewrite fields_repeat_delim, repeat_length. lia.
Qed.

(** C8, amended: with a delimiter other than the space, every line with at
    most [MAX_TOKEN_COUNT] fields is split by [TokenizeLine] into exactly
    its fields: the count is the number of fields, the tokens joined with
    the delimiter give the line back (no character is lost, none is added),
    a line that ends with the delimiter has an empty last token, the empty
    line has one empty token, and a line of L delimiters (L below
    [MAX_TOKEN_COUNT]) has L + 1 empty tokens. *)
Theorem C8_tokens_are_the_fields (data : CData) :
  delimiter data <> space ->
  length (tokens data) = MAX_TOKEN_COUNT ->
  length (fields (delimiter data) (inputline data)) <= MAX_TOKEN_COUNT ->
  exists data' n,
    TokenizeLine data = Done (data', n)
    /\ n = length (fields (delimiter data) (inputline data))
    /\ firstn n (tokens data') = fields (delimiter data) (inputline data)
    /\ join (delimiter data) (firstn n (tokens data')) = inputline data
    /\ (forall l, inputline data = l ++ [delimiter data] ->
                  last (firstn n (tokens data')) [space] = []
                  /\ removelast (firstn n (tokens data'))
                     = fields (delimiter data) l)
    /\ (inputline data = [] -> n = 1 /\ firstn n (tokens data') = [[]])
    /\ (forall L, inputline data = repeat (delimiter data) L ->
                  n = L + 1 /\ firstn n (tokens data') = repeat [] (L + 1)).
Proof.
  intros Hd Hlen Hfit.
  pose proof (fields_length_pos (delimiter data) (inputline data)) as Hpos.
  rewrite (TokenizeLine_done data Hd Hlen Hfit).
  set (F := fields (delimiter data) (inputline data)) in *.
  set (d1 := set_tokens _ _).
  assert (Ht : firstn (length F) (tokens (fst (TokenizeLine_check d1 (length F)))) = F).
  { assert (Hd1 : firstn (length F) (tokens d1) = F).
    { subst d1. fields_simpl.
      rewrite firstn_app, Nat.sub_diag, firstn_all. cbn [firstn]. apply app_nil_r. }
    unfold TokenizeLine_check.
    destruct ((length F =? 0) || (MAX_TOKEN_COUNT <? length F)); cbn [fst];
      [exact Hd1|].
    destruct (line_counter d1 =? 1)%N; cbn [fst]; exact Hd1. }
  assert (Hn : snd (TokenizeLine_check d1 (length F)) = length F).
  { unfold TokenizeLine_check.
    destruct (Nat.eqb_spec (length F) 0); [lia|].
    destruct (Nat.ltb_spec MAX_TOKEN_COUNT (length F)); [lia|].
    cbn [orb]. destruct (line_counter d1 =? 1)%N; reflexivity. }
  destruct (TokenizeLine_check d1 (length F)) as [d2 n] eqn:E.
  cbn [fst snd] in Ht, Hn. subst n.
  exists d2, (length F).
  split; [reflexivity|]. split; [reflexivity|]. rewrite Ht.
  split; [reflexivity|]. split; [apply join_fields|].
  split; [|split].
  - intros l Hl. subst F. rewrite Hl, fields_app_delim.
    rewrite last_last, removelast_last. split; reflexivity.
  - intros Hl. subst F. rewrite Hl. split; reflexivity.
  - intros L Hl. subst F. rewrite Hl, fields_repeat_delim, repeat_length.
    replace (L + 1) with (S L) by lia. split; reflexivity.
Qed.

(** The amended C8 on a line that ends with the delimiter. *)
Lemma C8_tokens_are_the_fields_witness :
  let data := set_inputline (txt "x,,y,") (CData_init ","%char [] []) in
  (delimiter data <> space
   /\ length (tokens data) = MAX_TOKEN_COUNT
   /\ length (fields (delimiter data) (inputline data)) <= MAX_TOKEN_COUNT)
  /\ exists data',
       TokenizeLine data = Done (data', 4)
       /\ firstn 4 (tokens data') = [txt "x"; txt ""; txt "y"; txt ""].
Proof.
  cbv zeta.
  set (data := set_inputline (txt "x,,y,") (CData_init ","%char [] [])).
  assert (H1 : delimiter data <> space) by discriminate.
  assert (H2 : length (tokens data) = MAX_TOKEN_COUNT) by apply repeat_length.
  assert (H3 : length (fields (delimiter data) (inputline data))
               <= MAX_TOKEN_COUNT)
    by (apply Nat.leb_le; vm_compute; reflexivity).
  split; [exact (conj H1 (conj H2 H3))|].
  destruct (C8_tokens_are_the_fields data H1 H2 H3)
    as (data' & n & T & Hn & Ht & _).
  assert (N4 : n = 4) by (rewrite Hn; vm_compute; reflexivity).
  clear Hn. subst n. exists data'. split; [exact T|].
  rewrite Ht. vm_compute. reflexivity.
Defined.

(** C9: the filter loops of the round replace every character of the
    replace-set by a space and then remove every character of the
    erase-set, in that order; with both sets empty the line is unchanged;
    and the line that [TokenizeLine] then extends with its sentinel is the
    filtered one, whatever the outcome of the round. *)
Theorem C9_filter_before_tokenization (data : CData) :
  GenerateJson_filter data
  = set_inputline
      (erase_set (erasechars data)
         (replace_set (replacewithspace data) (inputline data))) data
  /\ (forall line : str, erase_set [] (replace_set [] line) = line)
  /\ (forall (c : ascii) (rep era : list ascii) (line : str),
        In c (erase_set era (replace_set rep line)) ->
        in_set c era = false
        /\ (in_set c rep = true -> c = space))
  /\ inputline (final (GenerateJson_body data))
     = erase_set (erasechars data)
         (replace_set (replacewithspace data) (inputline data)) ++ [space].
Proof.
  split; [apply GenerateJson_filter_spec|].
  split.
  { intro line. unfold erase_set, replace_set. cbn [in_set existsb negb].
    rewrite map_id. induction line as [|x l IH]; [reflexivity|].
    cbn [filter]. f_equal. exact IH. }
  split.
  { intros c rep era line Hin. unfold erase_set in Hin.
    apply filter_In in Hin. destruct Hin as [Hin Hc].
    split; [destruct (in_set c era); [discriminate|reflexivity]|].
    intro Hr. unfold replace_set in Hin. apply in_map_iff in Hin.
    destruct Hin as (x & Hx & _).
    destruct (in_set x rep) eqn:Ex; [congruence|].
    subst x. congruence. }
  pose proof (GenerateJson_body_frame data) as Fr. cbv zeta in Fr.
  destruct Fr as (_ & Fi & _). exact Fi.
Qed.

(** C10: the claim fails on the code.  With the space as delimiter (the
    [-d space] of the command line) the sentinel that [TokenizeLine]
    appends is itself a delimiter, so the last token is empty when
    [pop_back] is applied to it. *)
Theorem C10_pop_back_on_empty_last_token :
  fault_of
    (TokenizeLine
       (fst (GetLine (Some (txt "a b"))
               (CData_init (delimiter_of d_space) [] []))))
  = Some pop_back_on_empty.
Proof. vm_compute. reflexivity. Qed.

(** * Further properties of the conversion *)

Lemma GenerateJson_while_appends (input : list str) :
  forall data : CData,
    exists more,
      out (final (GenerateJson_while input data)) = out data ++ more.
Proof.
  induction input as [|line input IH]; intro data; cbn [GenerateJson_while].
  - exists []. rewrite app_nil_r. reflexivity.
  - rewrite GetLine_Some. set (d1 := set_inputline line _).
    destruct (length line =? 0).
    { exists []. rewrite app_nil_r. reflexivity. }
    rewrite final_bind.
    pose proof (GenerateJson_body_frame d1) as Fr. cbv zeta in Fr.
    destruct Fr as ((rest & Ho & _) & _).
    change (out d1) with (out data) in Ho.
    destruct (GenerateJson_body d1) as [d2|why d2]; unfold final in *;
      cbn [state_of] in *.
    + destruct (IH d2) as [more Hm]. unfold final in Hm.
      exists (separator_of (line_counter d1) ++ rest ++ more).
      rewrite Hm, Ho, <- !app_assoc. reflexivity.
    + eexists. exact Ho.
Qed.

(** The rounds on the rows after the header, while the counter stays
    between 1 and 2^32 - 2: each row leaves its separator and, when valid,
    its object, and the header stays as it is. *)
Lemma GenerateJson_while_rows (rows : list str) :
  forall (data : CData) (c : N),
    well_formed data ->
    delimiter data <> space ->
    line_counter data = c ->
    (1 <= c)%N ->
    (c + N.of_nat (length rows) < UINT_MODULUS - 1)%N ->
    validtokencount data = length (header data) ->
    Forall (fun l =>
              l <> []
              /\ length (fields (delimiter data)
                           (filtered (replacewithspace data) (erasechars data) l))
                 <= MAX_TOKEN_COUNT) rows ->
    exists data',
      GenerateJson_while rows data = Done data'
      /\ out data'
         = out data
             ++ rows_log (delimiter data) (replacewithspace data)
                  (erasechars data) (header data) (c + 1)%N rows.
Proof.
  change UINT_MODULUS with 4294967296%N.
  induction rows as [|row rows IH]; intros data c W Hd Hc H1 Hlt Hv Hrows;
    cbn [GenerateJson_while rows_log].
  - eexists. split; [reflexivity|]. cbn [GetLine fst]. fields_simpl.
    rewrite app_nil_r. reflexivity.
  - rewrite GetLine_Some. change UINT_MODULUS with 4294967296%N.
    cbn [length] in Hlt. rewrite Hc, N.mod_small by lia.
    inversion Hrows as [|x xs [Hne Hfit] Hrest]; subst x xs.
    destruct (Nat.eqb_spec (length row) 0) as [E|_].
    { apply length_zero_iff_nil in E. contradiction. }
    set (d1 := set_inputline row _).
    assert (W1 : well_formed d1) by exact W.
    assert (L1 : line_counter d1 = (c + 1)%N) by reflexivity.
    destruct (GenerateJson_body_done d1 W1 Hd Hfit) as (d2 & B & W2 & _ & O & _).
    pose proof (GenerateJson_body_frame d1) as Fr. cbv zeta in Fr.
    rewrite B in Fr. unfold final in Fr. cbn [state_of] in Fr.
    destruct Fr as (_ & _ & Fr & Fe & Fd & Fl & Fh).
    destruct (Fh ltac:(rewrite L1; lia)) as (_ & Hh & Hvv).
    change (header d1) with (header data) in Hh, O.
    change (validtokencount d1) with (validtokencount data) in Hvv, O.
    change (replacewithspace d1) with (replacewithspace data) in Fr, O.
    change (erasechars d1) with (erasechars data) in Fe, O.
    change (delimiter d1) with (delimiter data) in Fd, O.
    change (inputline d1) with row in O.
    change (out d1) with (out data) in O.
    rewrite B. cbn [bind].
    assert (A1 : delimiter d2 <> space) by (rewrite Fd; exact Hd).
    assert (A2 : line_counter d2 = (c + 1)%N) by (rewrite Fl; exact L1).
    assert (A3 : (1 <= c + 1)%N) by lia.
    assert (A4 : (c + 1 + N.of_nat (length rows) < 4294967296 - 1)%N) by lia.
    assert (A5 : validtokencount d2 = length (header d2))
      by (rewrite Hvv, Hh; exact Hv).
    assert (A6 : Forall (fun l =>
                           l <> []
                           /\ length (fields (delimiter d2)
                                        (filtered (replacewithspace d2)
                                           (erasechars d2) l))
                              <= MAX_TOKEN_COUNT) rows)
      by (rewrite Fr, Fe, Fd; exact Hrest).
    destruct (IH d2 (c + 1)%N W2 A1 A2 A3 A4 A5 A6) as (d3 & L3 & O3).
    exists d3. split; [exact L3|].
    rewrite O3, O, L1, Fd, Fr, Fe, Hh, <- !app_assoc.
    replace (1 <? c + 1)%N with true by (symmetry; apply N.ltb_lt; lia).
    cbn [andb]. rewrite Hv, (Nat.eqb_sym (length (header data))).
    reflexivity.
Qed.

(** The run on a header and rows, all non-empty and within capacity. *)
Lemma GenerateJson_header_and_rows (delim : ascii) (rep era : list ascii)
    (head : str) (rows : list str) :
  delim <> space ->
  Forall (fun l =>
            l <> []
            /\ length (fields delim (filtered rep era l)) <= MAX_TOKEN_COUNT)
    (head :: rows) ->
  (N.of_nat (length rows) < UINT_MODULUS - 2)%N ->
  exists data,
    GenerateJson (head :: rows) (CData_init delim rep era) = Done data
    /\ out data
       = [put "["%char]
           ++ rows_log delim rep era (fields delim (filtered rep era head))
                2%N rows
           ++ [put "]"%char].
Proof.
  intros Hd Hall Hlen.
  inversion Hall as [|x xs [Hne Hfit] Hrows]; subst x xs.
  unfold GenerateJson. cbn [GenerateJson_while]. rewrite GetLine_Some.
  destruct (Nat.eqb_spec (length head) 0) as [E|_].
  { apply length_zero_iff_nil in E. contradiction. }
  set (d1 := set_inputline head _).
  assert (W1 : well_formed d1) by apply (well_formed_init delim rep era).
  assert (L1 : line_counter d1 = 1%N) by reflexivity.
  destruct (GenerateJson_body_done d1 W1 Hd Hfit) as (d2 & B & W2 & _ & O & C).
  destruct (C L1) as (_ & Ch & Cv).
  change (header d1) with (@nil str) in Ch.
  change (s_header d1) with (@nil str) in Ch.
  change (replacewithspace d1) with rep in Ch, Cv.
  change (erasechars d1) with era in Ch, Cv.
  change (delimiter d1) with delim in Ch, Cv.
  change (inputline d1) with head in Ch, Cv.
  cbn [app] in Ch.
  rewrite L1 in O. cbn [N.ltb N.compare Pos.compare Pos.compare_cont andb] in O.
  change (separator_of 1) with (@nil item) in O.
  change (out d1) with [put "["%char] in O. cbn [app] in O.
  pose proof (GenerateJson_body_frame d1) as Fr. cbv zeta in Fr.
  rewrite B in Fr. unfold final in Fr. cbn [state_of] in Fr.
  destruct Fr as (_ & _ & Fr & Fe & Fd & Fl & _).
  change (replacewithspace d1) with rep in Fr.
  change (erasechars d1) with era in Fe.
  change (delimiter d1) with delim in Fd.
  rewrite B. cbn [bind].
  assert (A1 : delimiter d2 <> space) by (rewrite Fd; exact Hd).
  assert (A2 : line_counter d2 = 1%N) by (rewrite Fl; exact L1).
  assert (A3 : (1 <= 1)%N) by lia.
  assert (A4 : (1 + N.of_nat (length rows) < UINT_MODULUS - 1)%N)
    by (change UINT_MODULUS with 4294967296%N in *; lia).
  assert (A5 : validtokencount d2 = length (header d2))
    by (rewrite Cv, Ch; reflexivity).
  assert (A6 : Forall (fun l =>
                         l <> []
                         /\ length (fields (delimiter d2)
                                      (filtered (replacewithspace d2)
                                         (erasechars d2) l))
                            <= MAX_TOKEN_COUNT) rows)
    by (rewrite Fr, Fe, Fd; exact Hrows).
  destruct (GenerateJson_while_rows rows d2 1%N W2 A1 A2 A3 A4 A5 A6)
    as (d3 & L3 & O3).
  rewrite L3. cbn [bind]. eexists. split; [reflexivity|]. fields_simpl.
  rewrite O3, O, Fd, Fr, Fe, Ch. reflexivity.
Qed.

(** X1: for a delimiter other than the space, a non-empty header line and
    non-empty rows that all fit the token buffer, and fewer than 2^32 - 2
    rows, the conversion completes and its output is the opening bracket,
    then for each row in order its separator (none for the first row) and
    its object when the row has as many fields as the header, then the
    closing bracket. *)
Theorem X1_output_of_header_and_rows (delim : ascii) (rep era : list ascii)
    (head : str) (rows : list str) :
  delim <> space ->
  Forall (fun l =>
            l <> []
            /\ length (fields delim (filtered rep era l)) <= MAX_TOKEN_COUNT)
    (head :: rows) ->
  (N.of_nat (length rows) < UINT_MODULUS - 2)%N ->
  exists data,
    GenerateJson (head :: rows) (CData_init delim rep era) = Done data
    /\ out data
       = [put "["%char]
           ++ rows_log delim rep era (fields delim (filtered rep era head))
                2%N rows
           ++ [put "]"%char].
Proof. exact (GenerateJson_header_and_rows delim rep era head rows). Qed.

(** X1 at the scenario input. *)
Lemma X1_output_of_header_and_rows_witness :
  (","%char <> space
   /\ Forall (fun l =>
                l <> []
                /\ length (fields ","%char (filtered [] [] l)) <= MAX_TOKEN_COUNT)
        scenario_input
   /\ (N.of_nat (length (tl scenario_input)) < UINT_MODULUS - 2)%N)
  /\ exists data,
       GenerateJson scenario_input (CData_init ","%char [] []) = Done data
       /\ out data
          = [put "["%char; write (json "{'id':'1','name':'alpha'}");
             put comma; put newline;
             write (json "{'id':'2','name':'beta'}"); put "]"%char].
Proof.
  assert (H1 : ","%char <> space) by discriminate.
  assert (H2 : Forall (fun l =>
                         l <> []
                         /\ length (fields ","%char (filtered [] [] l))
                            <= MAX_TOKEN_COUNT) scenario_input).
  { repeat constructor; try discriminate;
      apply Nat.leb_le; vm_compute; reflexivity. }
  assert (H3 : (N.of_nat (length (tl scenario_input)) < UINT_MODULUS - 2)%N)
    by (vm_compute; reflexivity).
  split; [exact (conj H1 (conj H2 H3))|].
  destruct (X1_output_of_header_and_rows ","%char [] [] (txt "id,name")
              [txt "1,alpha"; txt "2,beta"] H1 H2 H3) as (d & G & O).
  exists d. split; [exact G|]. rewrite O. vm_compute. reflexivity.
Defined.

Lemma GenerateJson_while_blank_line (pre : list str) :
  forall (post : list str) (data : CData),
    out (final (GenerateJson_while (pre ++ [] :: post) data))
    = out (final (GenerateJson_while pre data))
    /\ fault_of (GenerateJson_while (pre ++ [] :: post) data)
       = fault_of (GenerateJson_while pre data).
Proof.
  induction pre as [|line pre IH]; intros post data;
    cbn [app GenerateJson_while].
  - rewrite GetLine_Some. cbn [length Nat.eqb GetLine fst].
    split; reflexivity.
  - rewrite GetLine_Some. set (d1 := set_inputline line _).
    destruct (length line =? 0); [split; reflexivity|].
    rewrite !final_bind.
    destruct (GenerateJson_body d1) as [d2|why d2]; cbn [bind];
      [apply IH|split; reflexivity].
Qed.

(** X2: an empty line ends the conversion: whatever follows it in the
    input, the run writes what it writes for the lines before it, and
    faults exactly when the run on those lines faults. *)
Theorem X2_lines_after_a_blank_line_are_ignored (pre post : list str)
    (data : CData) :
  output_of (GenerateJson (pre ++ [] :: post) data)
  = output_of (GenerateJson pre data)
  /\ fault_of (GenerateJson (pre ++ [] :: post) data)
     = fault_of (GenerateJson pre data).
Proof.
  unfold GenerateJson.
  set (d0 := set_out _ data).
  destruct (GenerateJson_while_blank_line pre post d0) as [Ho Hf].
  destruct (GenerateJson_while (pre ++ [] :: post) d0) as [d1|w1 d1];
    destruct (GenerateJson_while pre d0) as [d2|w2 d2];
    unfold final in Ho; cbn [state_of fault_of bind output_of] in *;
    try discriminate.
  - fields_simpl. rewrite Ho. split; reflexivity.
  - split; [reflexivity|exact Hf].
Qed.

Lemma rows_log_app (delim : ascii) (rep era : list ascii) (names : list str)
    (rows1 : list str) :
  forall (c : N) (rows2 : list str),
    rows_log delim rep era names c (rows1 ++ rows2)
    = rows_log delim rep era names c rows1
        ++ rows_log delim rep era names (c + N.of_nat (length rows1))%N rows2.
Proof.
  induction rows1 as [|r rows1 IH]; intros c rows2; cbn [app rows_log length].
  - rewrite N.add_0_r. reflexivity.
  - replace (c + N.of_nat (S (length rows1)))%N
      with (c + 1 + N.of_nat (length rows1))%N by lia.
    rewrite IH, <- !app_assoc. reflexivity.
Qed.

Lemma bytes_app (l1 l2 : list item) : bytes (l1 ++ l2) = bytes l1 ++ bytes l2.
Proof. unfold bytes. apply flat_map_app. Qed.

(** X3: with a delimiter other than the space, for an input of a header,
    at least one row and a last row after them, in all fewer than 2^32 - 1
    lines, all non-empty and of at most [MAX_TOKEN_COUNT] fields after
    filtering: when the field count of the last row differs from the
    header's, the run completes and the separator of that row is written
    with no object after it, so the output ends with a comma, a newline and
    the closing bracket. *)
Theorem X3_dropped_last_row_leaves_its_separator (delim : ascii)
    (rep era : list ascii) (head : str) (rows : list str) (bad : str) :
  delim <> space ->
  Forall (fun l =>
            l <> []
            /\ length (fields delim (filtered rep era l)) <= MAX_TOKEN_COUNT)
    (head :: rows ++ [bad]) ->
  (N.of_nat (length (rows ++ [bad])) < UINT_MODULUS - 2)%N ->
  rows <> [] ->
  length (fields delim (filtered rep era bad))
  <> length (fields delim (filtered rep era head)) ->
  exists data before,
    GenerateJson (head :: rows ++ [bad]) (CData_init delim rep era) = Done data
    /\ bytes (out data) = before ++ [comma; newline; "]"%char].
Proof.
  intros Hd Hall Hlen Hrows Hbad.
  destruct (GenerateJson_header_and_rows delim rep era head (rows ++ [bad])
              Hd Hall Hlen) as (d & G & O).
  exists d.
  exists ("["%char
          :: bytes (rows_log delim rep era
                      (fields delim (filtered rep era head)) 2%N rows)).
  split; [exact G|].
  rewrite O, rows_log_app. cbn [rows_log].
  destruct (Nat.eqb_spec (length (fields delim (filtered rep era bad)))
              (length (fields delim (filtered rep era head)))) as [E|_];
    [contradiction|].
  unfold separator_of.
  replace (2 <? 2 + N.of_nat (length rows))%N with true.
  2: { symmetry. apply N.ltb_lt. destruct rows; [congruence|cbn [length]; lia]. }
  rewrite !bytes_app.
  change (bytes [put "["%char]) with ["["%char].
  change (bytes [put comma; put newline]) with [comma; newline].
  change (bytes [put "]"%char]) with ["]"%char].
  change (bytes []) with (@nil ascii).
  cbn [app]. rewrite <- !app_assoc. reflexivity.
Qed.

(** X3 on a header of two names, a valid row and a row of one field. *)
Lemma X3_dropped_last_row_leaves_its_separator_witness :
  (","%char <> space
   /\ Forall (fun l =>
                l <> []
                /\ length (fields ","%char (filtered [] [] l)) <= MAX_TOKEN_COUNT)
        (txt "a,b" :: [txt "1,2"] ++ [txt "3"])
   /\ (N.of_nat (length ([txt "1,2"] ++ [txt "3"])) < UINT_MODULUS - 2)%N
   /\ [txt "1,2"] <> []
   /\ length (fields ","%char (filtered [] [] (txt "3")))
      <> length (fields ","%char (filtered [] [] (txt "a,b"))))
  /\ exists data before,
       GenerateJson (txt "a,b" :: [txt "1,2"] ++ [txt "3"])
         (CData_init ","%char [] []) = Done data
       /\ bytes (out data) = before ++ [comma; newline; "]"%char].
Proof.
  assert (H1 : ","%char <> space) by discriminate.
  assert (H2 : Forall (fun l =>
                         l <> []
                         /\ length (fields ","%char (filtered [] [] l))
                            <= MAX_TOKEN_COUNT)
                 (txt "a,b" :: [txt "1,2"] ++ [txt "3"])).
  { repeat constructor; try discriminate;
      apply Nat.leb_le; vm_compute; reflexivity. }
  assert (H3 : (N.of_nat (length ([txt "1,2"] ++ [txt "3"]))
                < UINT_MODULUS - 2)%N) by (vm_compute; reflexivity).
  assert (H4 : [txt "1,2"] <> []) by discriminate.
  assert (H5 : length (fields ","%char (filtered [] [] (txt "3")))
               <> length (fields ","%char (filtered [] [] (txt "a,b"))))
    by (vm_compute; discriminate).
  split; [exact (conj H1 (conj H2 (conj H3 (conj H4 H5))))|].
  exact (X3_dropped_last_row_leaves_its_separator ","%char [] [] (txt "a,b")
           [txt "1,2"] (txt "3") H1 H2 H3 H4 H5).
Defined.

(** X4: the loop only appends to the output: what it has written after a
    prefix of the input is a prefix of what it has written after the whole
    input, whether the runs complete or fault. *)
Theorem X4_output_grows_with_the_input (pre post : list str) (data : CData) :
  exists more,
    out (final (GenerateJson_while (pre ++ post) data))
    = out (final (GenerateJson_while pre data)) ++ more.
Proof.
  revert data. induction pre as [|line pre IH]; intro data.
  - cbn [app]. destruct (GenerateJson_while_appends post data) as [more Hm].
    exists more. rewrite Hm. reflexivity.
  - cbn [app GenerateJson_while]. rewrite GetLine_Some.
    set (d1 := set_inputline line _).
    destruct (length line =? 0).
    { exists []. rewrite app_nil_r. reflexivity. }
    rewrite !final_bind.
    destruct (GenerateJson_body d1) as [d2|why d2].
    + apply IH.
    + exists []. rewrite app_nil_r. reflexivity.
Qed.

(** ** The Character Filter *)

Lemma filtered_chars (rep era : list ascii) (line : str) (c : ascii) :
  In c (filtered rep era line) ->
  in_set c era = false /\ (in_set c rep = true -> c = space).
Proof.
  intro Hin. unfold filtered, erase_set in Hin.
  apply filter_In in Hin. destruct Hin as [Hin Hc].
  split; [destruct (in_set c era); [discriminate|reflexivity]|].
  intro Hr. unfold replace_set in Hin. apply in_map_iff in Hin.
  destruct Hin as (x & Hx & _).
  destruct (in_set x rep) eqn:Ex; [congruence|].
  subst x. congruence.
Qed.

Lemma filtered_idempotent (rep era : list ascii) (line : str) :
  filtered rep era (filtered rep era line) = filtered rep era line.
Proof.
  pose proof (filtered_chars rep era line) as H.
  remember (filtered rep era line) as l eqn:El. clear El.
  unfold filtered.
  assert (R : replace_set rep l = l).
  { unfold replace_set. induction l as [|x l IH]; [reflexivity|].
    cbn [map]. rewrite IH by (intros c Hc; apply H; right; exact Hc).
    destruct (in_set x rep) eqn:E; [|reflexivity].
    destruct (H x (or_introl eq_refl)) as [_ Hs]. rewrite (Hs E). reflexivity. }
  rewrite R. unfold erase_set.
  induction l as [|x l IH]; [reflexivity|].
  cbn [filter]. destruct (H x (or_introl eq_refl)) as [He _]. rewrite He.
  cbn [negb]. f_equal. apply IH.
  - intros c Hc. apply H. right. exact Hc.
  - unfold replace_set in *. cbn [map] in R. injection R as _ R. exact R.
Qed.

(** X5: filtering is idempotent: the filter loops applied to an already
    filtered line leave it as it is, for every replace-set and erase-set. *)
Theorem X5_filter_is_idempotent (data : CData) :
  GenerateJson_filter (GenerateJson_filter data) = GenerateJson_filter data.
Proof.
  rewrite !GenerateJson_filter_spec. fields_simpl.
  rewrite filtered_idempotent. reflexivity.
Qed.

Lemma fields_without_delim (d : ascii) (s : str) :
  ~ In d s -> fields d s = [s].
Proof.
  intro H. apply index_of_None_fields.
  induction s as [|c s IH]; [reflexivity|].
  cbn [index_of]. destruct (Ascii.eqb_spec c d) as [E|E].
  - exfalso. apply H. left. exact E.
  - rewrite IH; [reflexivity|]. intro Hin. apply H. right. exact Hin.
Qed.

(** X6: when the delimiter is in the erase-set, or in the replace-set, the
    filter removes every delimiter from the line before it is tokenized:
    every line then has exactly one token, the whole filtered line. *)
Theorem X6_filtered_delimiter_gives_one_token (data : CData) :
  length (tokens data) = MAX_TOKEN_COUNT ->
  delimiter data <> space ->
  in_set (delimiter data) (erasechars data) = true
  \/ in_set (delimiter data) (replacewithspace data) = true ->
  exists data',
    TokenizeLine (GenerateJson_separator (GenerateJson_filter data))
    = Done (data', 1)
    /\ firstn 1 (tokens data')
       = [filtered (replacewithspace data) (erasechars data) (inputline data)].
Proof.
  intros Hlen Hd Hset.
  set (row := filtered (replacewithspace data) (erasechars data) (inputline data)).
  assert (Hno : ~ In (delimiter data) row).
  { intro Hin. apply filtered_chars in Hin. destruct Hin as [He Hr].
    destruct Hset as [Hs|Hs]; [congruence|]. apply Hd. apply Hr. exact Hs. }
  pose proof (MAX_TOKEN_COUNT_pos) as Hpos.
  rewrite GenerateJson_filter_spec, GenerateJson_separator_spec. fold row.
  set (d0 := set_out _ _).
  assert (F : fields (delimiter d0) (inputline d0) = [row])
    by (apply fields_without_delim; exact Hno).
  rewrite (TokenizeLine_done d0 Hd Hlen) by (rewrite F; cbn [length]; lia).
  rewrite F. cbn [length].
  set (d1 := set_tokens _ _).
  assert (T1 : firstn 1 (tokens d1) = [row]) by reflexivity.
  unfold TokenizeLine_check.
  destruct (Nat.ltb_spec MAX_TOKEN_COUNT 1) as [|_]; [lia|].
  cbn [Nat.eqb orb].
  destruct (line_counter d1 =? 1)%N; eexists; (split; [reflexivity|exact T1]).
Qed.

(** X6 with the comma both as delimiter and in the erase-set. *)
Lemma X6_filtered_delimiter_gives_one_token_witness :
  let data := set_inputline (txt "1,2,3") (CData_init ","%char [] [","%char]) in
  (length (tokens data) = MAX_TOKEN_COUNT
   /\ delimiter data <> space
   /\ (in_set (delimiter data) (erasechars data) = true
       \/ in_set (delimiter data) (replacewithspace data) = true))
  /\ exists data',
       TokenizeLine (GenerateJson_separator (GenerateJson_filter data))
       = Done (data', 1)
       /\ firstn 1 (tokens data') = [txt "123"].
Proof.
  cbv zeta.
  set (data := set_inputline (txt "1,2,3") (CData_init ","%char [] [","%char])).
  assert (H1 : length (tokens data) = MAX_TOKEN_COUNT) by apply repeat_length.
  assert (H2 : delimiter data <> space) by discriminate.
  assert (H3 : in_set (delimiter data) (erasechars data) = true
               \/ in_set (delimiter data) (replacewithspace data) = true)
    by (left; reflexivity).
  split; [exact (conj H1 (conj H2 H3))|].
  destruct (X6_filtered_delimiter_gives_one_token data H1 H2 H3)
    as (d' & T & F).
  exists d'. split; [exact T|]. rewrite F. reflexivity.
Defined.

(** ** Tokens *)

Lemma fields_length_count (d : ascii) (s : str) :
  length (fields d s) = S (count_occ ascii_dec s d).
Proof.
  induction s as [|c s IH]; [reflexivity|].
  cbn [fields count_occ].
  destruct (Ascii.eqb_spec c d) as [E|E]; destruct (ascii_dec c d) as [E'|E'];
    try congruence.
  - cbn [length]. rewrite IH. reflexivity.
  - pose proof (fields_not_nil d s) as Hn.
    destruct (fields d s); [congruence|exact IH].
Qed.

Lemma fields_no_delim (d : ascii) (s : str) :
  Forall (fun f => ~ In d f) (fields d s).
Proof.
  induction s as [|c s IH]; cbn [fields].
  - constructor; [intros []|constructor].
  - destruct (Ascii.eqb_spec c d) as [E|E].
    + constructor; [intros []|exact IH].
    + destruct (fields d s) as [|f fs]; [repeat constructor; intros [?|[]]; congruence|].
      inversion IH as [|x xs Hf Hfs]; subst x xs.
      constructor; [|exact Hfs].
      intros [H|H]; [congruence|exact (Hf H)].
Qed.

Lemma TokenizeLine_Done_tokens (data data' : CData) (n : nat) :
  length (tokens data) = MAX_TOKEN_COUNT ->
  TokenizeLine data = Done (data', n) ->
  n = length (fields (delimiter data) (inputline data))
  /\ n <= MAX_TOKEN_COUNT
  /\ firstn n (tokens data') = fields (delimiter data) (inputline data).
Proof.
  intros Hlen T.
  destruct (TokenizeLine_Done_inv data data' n Hlen T) as (Hd & Hfit).
  pose proof (fields_length_pos (delimiter data) (inputline data)) as Hpos.
  rewrite (TokenizeLine_done data Hd Hlen Hfit) in T.
  set (F := fields (delimiter data) (inputline data)) in *.
  set (d1 := set_tokens _ _) in T.
  assert (Hd1 : firstn (length F) (tokens d1) = F).
  { subst d1. fields_simpl.
    rewrite firstn_app, Nat.sub_diag, firstn_all. cbn [firstn]. apply app_nil_r. }
  unfold TokenizeLine_check in T.
  destruct (Nat.eqb_spec (length F) 0) as [|_]; [lia|].
  destruct (Nat.ltb_spec MAX_TOKEN_COUNT (length F)) as [|_]; [lia|].
  cbn [orb] in T.
  destruct (line_counter d1 =? 1)%N; injection T as T1 T2; subst n data';
    (split; [reflexivity|split; [exact Hfit|exact Hd1]]).
Qed.

(** X7: whenever [TokenizeLine] completes, the count it returns is one more
    than the number of delimiter characters in the line, it lies between 1
    and [MAX_TOKEN_COUNT] (so it is never the 0 that the guard of
    [TokenizeLine] returns for an unusable line), and none of the tokens
    contains the delimiter. *)
Theorem X7_token_count_and_content (data data' : CData) (n : nat) :
  length (tokens data) = MAX_TOKEN_COUNT ->
  TokenizeLine data = Done (data', n) ->
  n = S (count_occ ascii_dec (inputline data) (delimiter data))
  /\ 1 <= n <= MAX_TOKEN_COUNT
  /\ Forall (fun t => ~ In (delimiter data) t) (firstn n (tokens data')).
Proof.
  intros Hlen T.
  destruct (TokenizeLine_Done_tokens data data' n Hlen T) as (Hn & Hm & Ht).
  rewrite Ht.
  pose proof (fields_length_count (delimiter data) (inputline data)) as Hc.
  split; [congruence|]. split; [lia|apply fields_no_delim].
Qed.

(** X7 on a line of three fields. *)
Lemma X7_token_count_and_content_witness :
  let data := set_inputline (txt "x,,y") (CData_init ","%char [] []) in
  exists data',
    length (tokens data) = MAX_TOKEN_COUNT
    /\ TokenizeLine data = Done (data', 3)
    /\ 3 = S (count_occ ascii_dec (inputline data) (delimiter data))
    /\ 1 <= 3 <= MAX_TOKEN_COUNT
    /\ Forall (fun t => ~ In (delimiter data) t) (firstn 3 (tokens data')).
Proof.
  cbv zeta.
  set (data := set_inputline (txt "x,,y") (CData_init ","%char [] [])).
  assert (H1 : length (tokens data) = MAX_TOKEN_COUNT) by apply repeat_length.
  destruct (TokenizeLine data) as [[data' n]|why d] eqn:T;
    [|exfalso; revert T; vm_compute; discriminate].
  assert (Hn : n = 3).
  { apply (f_equal (fun r => match r with
                             | Done (_, k) => k
                             | Undefined _ _ => 0
                             end)) in T.
    rewrite <- T. vm_compute. reflexivity. }
  subst n. exists data'.
  split; [exact H1|]. split; [reflexivity|].
  exact (X7_token_count_and_content data data' 3 H1 T).
Defined.

(** ** Runs that fault *)

(** X8: with the space as delimiter the conversion cannot work: for every
    replace-set and erase-set and every input whose first line is not empty
    and has fewer than [MAX_TOKEN_COUNT] fields, the run applies [pop_back]
    to an empty token on that first line. *)
Theorem X8_space_delimiter_always_faults (rep era : list ascii) (line : str)
    (rest : list str) :
  line <> [] ->
  length (fields space (filtered rep era line)) < MAX_TOKEN_COUNT ->
  fault_of (GenerateJson (line :: rest) (CData_init space rep era))
  = Some pop_back_on_empty.
Proof.
  intros Hne Hfit. unfold GenerateJson. apply fault_of_bind.
  cbn [GenerateJson_while]. rewrite GetLine_Some.
  destruct (Nat.eqb_spec (length line) 0) as [E|_].
  { apply length_zero_iff_nil in E. contradiction. }
  apply fault_of_bind. unfold GenerateJson_body.
  rewrite GenerateJson_filter_spec, GenerateJson_separator_spec.
  apply fault_of_bind. apply TokenizeLine_space_delimiter; fields_simpl.
  - reflexivity.
  - apply repeat_length.
  - exact Hfit.
Qed.

(** X8 on a header of two words. *)
Lemma X8_space_delimiter_always_faults_witness :
  (txt "id name" <> []
   /\ length (fields space (filtered [] [] (txt "id name"))) < MAX_TOKEN_COUNT)
  /\ fault_of (GenerateJson [txt "id name"; txt "1 alpha"]
                 (CData_init space [] []))
     = Some pop_back_on_empty.
Proof.
  assert (H1 : txt "id name" <> []) by discriminate.
  assert (H2 : length (fields space (filtered [] [] (txt "id name")))
               < MAX_TOKEN_COUNT)
    by (apply Nat.ltb_lt; vm_compute; reflexivity).
  split; [exact (conj H1 H2)|].
  exact (X8_space_delimiter_always_faults [] [] (txt "id name")
           [txt "1 alpha"] H1 H2).
Defined.

(** X9: a run that reaches, after non-empty lines that fit the buffer, a
    line with more than [MAX_TOKEN_COUNT] fields stores a token past the
    end of the buffer, for every delimiter other than the space, every
    replace-set and erase-set, and whatever follows that line: the count
    guard of [TokenizeLine] is never reached for such a line. *)
Theorem X9_line_beyond_capacity_always_faults (delim : ascii)
    (rep era : list ascii) (pre : list str) (line : str) (post : list str) :
  delim <> space ->
  Forall (fun l =>
            l <> []
            /\ length (fields delim (filtered rep era l)) <= MAX_TOKEN_COUNT)
    pre ->
  MAX_TOKEN_COUNT < length (fields delim (filtered rep era line)) ->
  fault_of (GenerateJson (pre ++ line :: post) (CData_init delim rep era))
  = Some (array_index_out_of_range MAX_TOKEN_COUNT).
Proof.
  intros Hd Hpre Hover. unfold GenerateJson. apply fault_of_bind.
  apply GenerateJson_while_past_capacity; fields_simpl.
  - apply (well_formed_init delim rep era).
  - exact Hd.
  - exact Hpre.
  - exact Hover.
Qed.

(** X9 on a line of [MAX_TOKEN_COUNT] semicolons after a header. *)
Lemma X9_line_beyond_capacity_always_faults_witness :
  (";"%char <> space
   /\ Forall (fun l =>
                l <> []
                /\ length (fields ";"%char (filtered [] [] l))
                   <= MAX_TOKEN_COUNT) [txt "a;b"]
   /\ MAX_TOKEN_COUNT
      < length (fields ";"%char
                  (filtered [] [] (repeat ";"%char MAX_TOKEN_COUNT))))
  /\ fault_of (GenerateJson ([txt "a;b"] ++ repeat ";"%char MAX_TOKEN_COUNT :: [])
                 (CData_init ";"%char [] []))
     = Some (array_index_out_of_range MAX_TOKEN_COUNT).
Proof.
  assert (H1 : ";"%char <> space) by discriminate.
  assert (H2 : Forall (fun l =>
                         l <> []
                         /\ length (fields ";"%char (filtered [] [] l))
                            <= MAX_TOKEN_COUNT) [txt "a;b"]).
  { repeat constructor; [discriminate|].
    apply Nat.leb_le. vm_compute. reflexivity. }
  assert (H3 : MAX_TOKEN_COUNT
               < length (fields ";"%char
                           (filtered [] [] (repeat ";"%char MAX_TOKEN_COUNT)))).
  { rewrite filtered_nil, fields_repeat_delim, repeat_length. lia. }
  split; [exact (conj H1 (conj H2 H3))|].
  exact (X9_line_beyond_capacity_always_faults ";"%char [] [] [txt "a;b"]
           (repeat ";"%char MAX_TOKEN_COUNT) [] H1 H2 H3).
Defined.

(** X10: whatever the input and the state, a run never throws
    [std::out_of_range] from [substr] and the scan of a line always ends:
    when a run does not complete, it is because of an index past the token
    buffer or the header, or a [pop_back] on an empty token. *)
Theorem X10_only_undefined_behaviour_stops_a_run (input : list str)
    (data : CData) (f : fault) :
  fault_of (GenerateJson input data) = Some f ->
  is_undefined_behaviour f = true
  /\ f <> substr_out_of_range
  /\ f <> fuel_exhausted.
Proof.
  intro H. apply GenerateJson_faults in H.
  split; [exact H|].
  split; intro E; subst f; discriminate H.
Qed.

(** X10 on a run with the space as delimiter. *)
Lemma X10_only_undefined_behaviour_stops_a_run_witness :
  fault_of (GenerateJson [txt "a b"] (CData_init space [] []))
  = Some pop_back_on_empty
  /\ is_undefined_behaviour pop_back_on_empty = true
  /\ pop_back_on_empty <> substr_out_of_range
  /\ pop_back_on_empty <> fuel_exhausted.
Proof.
  assert (H : fault_of (GenerateJson [txt "a b"] (CData_init space [] []))
              = Some pop_back_on_empty) by (vm_compute; reflexivity).
  split; [exact H|].
  exact (X10_only_undefined_behaviour_stops_a_run [txt "a b"]
           (CData_init space [] []) pop_back_on_empty H).
Defined.

(** ** The line counter *)

(** X11: the line counter is an [unsigned] and wraps: the line read when
    the counter stands at 2^32 - 1 is counted as line 0, and the round on
    it writes nothing, neither a separator nor a record, even when the line
    is a valid row. *)
Theorem X11_row_at_counter_wrap_is_not_written (data : CData) (line : str) :
  well_formed data ->
  delimiter data <> space ->
  line_counter data = (UINT_MODULUS - 1)%N ->
  length (fields (delimiter data)
            (filtered (replacewithspace data) (erasechars data) line))
  <= MAX_TOKEN_COUNT ->
  exists data',
    GenerateJson_body (fst (GetLine (Some line) data)) = Done data'
    /\ line_counter data' = 0%N
    /\ out data' = out data.
Proof.
  intros W Hd Hc Hfit. rewrite GetLine_Some. cbn [fst].
  rewrite Hc. change ((UINT_MODULUS - 1 + 1) mod UINT_MODULUS)%N with 0%N.
  set (d1 := set_inputline line _).
  assert (W1 : well_formed d1) by exact W.
  destruct (GenerateJson_body_done d1 W1 Hd Hfit) as (d2 & B & _ & _ & O & _).
  pose proof (GenerateJson_body_frame d1) as Fr. cbv zeta in Fr.
  rewrite B in Fr. unfold final in Fr. cbn [state_of] in Fr.
  destruct Fr as (_ & _ & _ & _ & _ & Fl & _).
  exists d2. split; [exact B|]. split; [exact Fl|].
  rewrite O. change (line_counter d1) with 0%N.
  change (out d1) with (out data).
  cbn [N.ltb N.compare andb separator_of app]. apply app_nil_r.
Qed.

(** X11 on a state that holds a header of one name. *)
Lemma X11_row_at_counter_wrap_is_not_written_witness :
  let data :=
    set_line_counter (UINT_MODULUS - 1)%N
      (set_header [txt "a"] [txt "a"] 1 (CData_init ","%char [] [])) in
  (well_formed data
   /\ delimiter data <> space
   /\ line_counter data = (UINT_MODULUS - 1)%N
   /\ length (fields (delimiter data)
                (filtered (replacewithspace data) (erasechars data) (txt "x")))
      <= MAX_TOKEN_COUNT)
  /\ exists data',
       GenerateJson_body (fst (GetLine (Some (txt "x")) data)) = Done data'
       /\ line_counter data' = 0%N
       /\ out data' = out data.
Proof.
  cbv zeta.
  set (data := set_line_counter _ _).
  assert (H1 : well_formed data).
  { unfold well_formed. subst data. fields_simpl.
    unfold CData_init. fields_simpl. rewrite repeat_length. cbn [length].
    pose proof MAX_TOKEN_COUNT_pos. repeat split; lia. }
  assert (H2 : delimiter data <> space) by discriminate.
  assert (H3 : line_counter data = (UINT_MODULUS - 1)%N) by reflexivity.
  assert (H4 : length (fields (delimiter data)
                         (filtered (replacewithspace data) (erasechars data)
                            (txt "x"))) <= MAX_TOKEN_COUNT)
    by (apply Nat.leb_le; vm_compute; reflexivity).
  split; [exact (conj H1 (conj H2 (conj H3 H4)))|].
  exact (X11_row_at_counter_wrap_is_not_written data (txt "x") H1 H2 H3 H4).
Defined.

(** * Properties of the command line *)

Lemma two_step_ind (P : list str -> Prop) :
  (forall args,
      (forall x y rest, args = x :: y :: rest -> P rest) -> P args) ->
  forall args, P args.
Proof.
  intros H args.
  assert (G : forall n l, length l <= n -> P l).
  { induction n as [|n IH]; intros l Hl; apply H; intros x y rest E; subst l;
      cbn [length] in Hl; [lia|].
    apply IH. lia. }
  apply (G (length args)). lia.
Qed.

Lemma hash_switch_In (sgn : bool) (word : str)
    (table : list (String.string * ascii)) (c : ascii) :
  hash_switch sgn word table = Some c -> In c (map snd table).
Proof.
  induction table as [|[name x] table IH]; cbn [hash_switch map snd];
    [discriminate|].
  destruct (hash sgn word =? hash sgn (txt name))%N.
  - intros [= <-]. left. reflexivity.
  - intro H. right. exact (IH H).
Qed.

(** Every outcome of the loop is reached from the state it starts in by
    updates of the six kinds below. *)
Lemma ParseArguments_while_invariant (P : Args -> Prop) :
  (forall a c, P a -> In c (map snd delimiter_cases) ->
               P (set_cdata (set_delimiter c (cdata a)) a)) ->
  (forall a v, P a -> P (set_infilepath v a)) ->
  (forall a v, P a -> P (set_outfilepath v a)) ->
  (forall a c, P a -> In c (map snd replace_cases) ->
               P (set_cdata (push_replacewithspace c (cdata a)) a)) ->
  (forall a c, P a -> In c (map snd erase_cases) ->
               P (set_cdata (push_erasechars c (cdata a)) a)) ->
  (forall a s, P a -> P (put_cerr s a)) ->
  forall (sgn : bool) (args : list str) (a : Args),
    P a -> P (fst (ParseArguments_while sgn args a)).
Proof.
  intros Hd Hi Ho Hr He Hc sgn args.
  induction args as [args IH] using two_step_ind. intros a Pa.
  destruct args as [|arg rest]; [exact Pa|].
  cbn [ParseArguments_while].
  repeat match goal with
         | |- context [if is_arg arg ?x || is_arg arg ?y then _ else _] =>
           destruct (is_arg arg x || is_arg arg y)
         end;
    try (destruct rest as [|v rest']; [exact Pa|]);
    try match goal with
        | |- context [hash_switch sgn ?w ?t] =>
          let E := fresh "E" in
          destruct (hash_switch sgn w t) as [c|] eqn:E;
            [apply hash_switch_In in E|]
        end;
    cbn [fst Help];
    try match goal with
        | |- context [ParseArguments_while sgn ?r ?b] =>
          apply (IH _ _ r eq_refl)
        end;
    auto.
Qed.

(** The result is 0 with nothing written to [std::cerr], or 1 with a
    message appended to it. *)
Lemma ParseArguments_while_result (sgn : bool) (args : list str) :
  forall a : Args,
    (snd (ParseArguments_while sgn args a) = 0%N
     /\ cerr (fst (ParseArguments_while sgn args a)) = cerr a)
    \/ (snd (ParseArguments_while sgn args a) = 1%N
        /\ exists msg,
             msg <> []
             /\ cerr (fst (ParseArguments_while sgn args a)) = cerr a ++ msg).
Proof.
  induction args as [args IH] using two_step_ind. intro a.
  destruct args as [|arg rest]; [left; split; reflexivity|].
  cbn [ParseArguments_while].
  repeat match goal with
         | |- context [if is_arg arg ?x || is_arg arg ?y then _ else _] =>
           destruct (is_arg arg x || is_arg arg y)
         end;
    try (destruct rest as [|v rest']; [left; split; reflexivity|]);
    try match goal with
        | |- context [hash_switch sgn ?w ?t] =>
          destruct (hash_switch sgn w t) as [c|]
        end;
    try (match goal with
         | |- context [ParseArguments_while sgn ?r ?b] =>
           exact (IH _ _ r eq_refl b)
         end);
    right; (split; [reflexivity|]); cbn [fst Help put_cerr cerr];
    eexists; (split; [|reflexivity]); discriminate.
Qed.

(** X12: the three name tables are looked up correctly for their own names,
    whatever the signedness of [char]: [-d], [-r] and [-e] followed by a
    name of the respective table select the character of that name and
    the parse succeeds; the characters of the [-d] table are those of
    [delimiter_of]. *)
Theorem X12_names_select_their_characters (sgn : bool) (argv0 : str)
    (a : Args) (name : String.string) (c : ascii) :
  (In (name, c) delimiter_cases ->
   ParseArguments sgn [argv0; txt "-d"; txt name] a
   = (set_cdata (set_delimiter c (cdata a)) a, 0%N))
  /\ (In (name, c) replace_cases ->
      ParseArguments sgn [argv0; txt "-r"; txt name] a
      = (set_cdata (push_replacewithspace c (cdata a)) a, 0%N))
  /\ (In (name, c) erase_cases ->
      ParseArguments sgn [argv0; txt "-e"; txt name] a
      = (set_cdata (push_erasechars c (cdata a)) a, 0%N))
  /\ map delimiter_of [d_pipe; d_comma; d_semicolumn; d_column; d_space; d_tab]
     = map snd delimiter_cases.
Proof.
  split; [|split; [|split; [|reflexivity]]]; intro H;
    repeat (destruct H as [H|H];
            [injection H as <- <-; destruct sgn; vm_compute; reflexivity|]);
    destruct H.
Qed.

(** X13: the names are compared through their 32-bit hash only, so a word
    that is no delimiter name can be taken for one: [-d qpscyze] is accepted
    and selects the tab, the hash of the word being that of the name tab. *)
Theorem X13_a_word_with_the_hash_of_a_name_is_accepted (sgn : bool)
    (argv0 : str) (a : Args) :
  ~ In (txt "qpscyze") (map (fun e => txt (fst e)) delimiter_cases)
  /\ hash sgn (txt "qpscyze") = hash sgn (txt "tab")
  /\ ParseArguments sgn [argv0; txt "-d"; txt "qpscyze"] a
     = (set_cdata (set_delimiter "009"%char (cdata a)) a, 0%N).
Proof.
  split; [|split].
  - cbn [map delimiter_cases fst].
    intro H. repeat (destruct H as [H|H]; [discriminate H|]). destruct H.
  - destruct sgn; vm_compute; reflexivity.
  - destruct sgn; vm_compute; reflexivity.
Qed.

Lemma ParseArguments_result_aux (sgn : bool) (argv : list str) (a : Args) :
  (snd (ParseArguments sgn argv a) = 0%N
   /\ cerr (fst (ParseArguments sgn argv a)) = cerr a)
  \/ (snd (ParseArguments sgn argv a) = 1%N
      /\ exists msg,
           msg <> []
           /\ cerr (fst (ParseArguments sgn argv a)) = cerr a ++ msg).
Proof. apply ParseArguments_while_result. Qed.

(** X14: [ParseArguments] returns 0 or 1; it returns 0 exactly when it has
    written nothing to [std::cerr], and 1 with a non-empty message appended
    to it. *)
Theorem X14_result_and_diagnostics (sgn : bool) (argv : list str) (a : Args) :
  (snd (ParseArguments sgn argv a) = 0%N
   /\ cerr (fst (ParseArguments sgn argv a)) = cerr a)
  \/ (snd (ParseArguments sgn argv a) = 1%N
      /\ exists msg,
           msg <> []
           /\ cerr (fst (ParseArguments sgn argv a)) = cerr a ++ msg).
Proof. apply ParseArguments_while_result. Qed.

Lemma configured_init : configured (CData_init ","%char [] []).
Proof.
  exists ","%char, [], []. split; [reflexivity|].
  split; [right; left; reflexivity|]. split; constructor.
Qed.

Lemma ParseArguments_configured (sgn : bool) (argv : list str) (a : Args) :
  configured (cdata a) ->
  configured (cdata (fst (ParseArguments sgn argv a))).
Proof.
  unfold ParseArguments.
  apply (ParseArguments_while_invariant (fun x => configured (cdata x)));
    try (intros; assumption).
  - intros x c (delim & rep & era & E & _ & Hr & He) Hc.
    exists c, rep, era. cbn [cdata set_cdata]. rewrite E.
    split; [reflexivity|]. split; [exact Hc|]. split; assumption.
  - intros x c (delim & rep & era & E & Hd & Hr & He) Hc.
    exists delim, (rep ++ [c]), era. cbn [cdata set_cdata]. rewrite E.
    split; [reflexivity|]. split; [exact Hd|].
    split; [apply Forall_app; split;
              [exact Hr|constructor; [exact Hc|constructor]]|exact He].
  - intros x c (delim & rep & era & E & Hd & Hr & He) Hc.
    exists delim, rep, (era ++ [c]). cbn [cdata set_cdata]. rewrite E.
    split; [reflexivity|]. split; [exact Hd|].
    split; [exact Hr|apply Forall_app; split;
                       [exact He|constructor; [exact Hc|constructor]]].
Qed.

(** X15: whatever the arguments, also when the parse fails, the conversion
    data that [ParseArguments] leaves from the initial ones has untouched
    buffers, a delimiter that is one of the six characters of the [-d]
    table, replace characters of the [-r] table only (so never the space)
    and erase characters of the [-e] table only. *)
Theorem X15_parsed_configuration (sgn : bool) (argv : list str) :
  exists delim rep era,
    cdata (fst (ParseArguments sgn argv Args_init)) = CData_init delim rep era
    /\ In delim (map snd delimiter_cases)
    /\ Forall (fun c => In c (map snd replace_cases)) rep
    /\ ~ In space rep
    /\ Forall (fun c => In c (map snd erase_cases)) era
    /\ well_formed (cdata (fst (ParseArguments sgn argv Args_init))).
Proof.
  destruct (ParseArguments_configured sgn argv Args_init configured_init)
    as (delim & rep & era & E & Hd & Hr & He).
  exists delim, rep, era. rewrite E.
  split; [reflexivity|]. split; [exact Hd|]. split; [exact Hr|].
  split; [|split; [exact He|apply well_formed_init]].
  intro Hin. rewrite Forall_forall in Hr. specialize (Hr _ Hin).
  cbn [map replace_cases snd] in Hr.
  repeat (destruct Hr as [Hr|Hr]; [discriminate Hr|]). destruct Hr.
Qed.

Lemma ParseArguments_trailing_option (sgn : bool) (argv0 opt : str) (a : Args) :
  In opt value_options ->
  ParseArguments sgn [argv0; opt] a = (a, 0%N).
Proof.
  intro H. unfold value_options in H.
  repeat (destruct H as [H|H]; [subst opt; vm_compute; reflexivity|]).
  destruct H.
Qed.

(** An option that takes a value, followed by a word: either the parse goes
    on after the two with new data, or it ends there, and which of the two
    does not depend on what follows. *)
Lemma ParseArguments_while_value_option (sgn : bool) (opt v : str) (a : Args) :
  In opt value_options ->
  (exists a', forall rest,
      ParseArguments_while sgn (opt :: v :: rest) a
      = ParseArguments_while sgn rest a')
  \/ (exists r, forall rest,
         ParseArguments_while sgn (opt :: v :: rest) a = r).
Proof.
  intro H. unfold value_options in H.
  destruct H as [H|[H|H]].
  1, 2: subst opt;
    destruct (hash_switch sgn v delimiter_cases) as [c|] eqn:E;
    [left; exists (set_cdata (set_delimiter c (cdata a)) a)
    |right; exists (put_cerr (txt "Unknown delimiter: " ++ v ++ [newline]) a, 1%N)];
    intro rest; cbn [ParseArguments_while]; rewrite E; reflexivity.
  destruct H as [H|[H|H]].
  1, 2: subst opt; left; exists (set_infilepath v a); intro rest; reflexivity.
  destruct H as [H|[H|H]].
  1, 2: subst opt; left; exists (set_outfilepath v a); intro rest; reflexivity.
  destruct H as [H|[H|H]].
  1, 2: subst opt;
    destruct (hash_switch sgn v replace_cases) as [c|] eqn:E;
    [left; exists (set_cdata (push_replacewithspace c (cdata a)) a)
    |right; exists (put_cerr (txt "Unknown character: " ++ v ++ [newline]) a, 1%N)];
    intro rest; cbn [ParseArguments_while]; rewrite E; reflexivity.
  destruct H as [H|[H|H]]; [| |destruct H].
  1, 2: subst opt;
    destruct (hash_switch sgn v erase_cases) as [c|] eqn:E;
    [left; exists (set_cdata (push_erasechars c (cdata a)) a)
    |right; exists (put_cerr (txt "Unknown character: " ++ v ++ [newline]) a, 1%N)];
    intro rest; cbn [ParseArguments_while]; rewrite E; reflexivity.
Qed.

(** After options that take a value, each with its value, one more such
    option standing last changes nothing, whether the values are accepted
    or not. *)
Lemma ParseArguments_while_trailing_option (sgn : bool) (opt : str) :
  In opt value_options ->
  forall (pairs : list (str * str)) (a : Args),
    Forall (fun p => In (fst p) value_options) pairs ->
    ParseArguments_while sgn (option_arguments pairs ++ [opt]) a
    = ParseArguments_while sgn (option_arguments pairs) a.
Proof.
  intros Ho pairs. induction pairs as [|[o v] pairs IH]; intros a Hp.
  - exact (ParseArguments_trailing_option sgn [] opt a Ho).
  - inversion Hp as [|p ps Hin Hps]; subst p ps. cbn [fst] in Hin.
    change (option_arguments ((o, v) :: pairs) ++ [opt])
      with (o :: v :: (option_arguments pairs ++ [opt])).
    change (option_arguments ((o, v) :: pairs))
      with (o :: v :: option_arguments pairs).
    destruct (ParseArguments_while_value_option sgn o v a Hin)
      as [[a' E]|[r E]].
    + rewrite !E. apply IH. exact Hps.
    + rewrite !E. reflexivity.
Qed.

(** X16: an option that takes a value and stands last without its value,
    after any number of such options each followed by a word in the place
    of its value, is passed over silently: [ParseArguments] leaves the same
    data, messages and result as without it (0 and the data as they were
    when it is the only argument), and [main] behaves as if the option were
    not there. *)
Theorem X16_trailing_option_without_value (sgn : bool) (w : World)
    (argv0 : str) (pairs : list (str * str)) (opt : str) :
  Forall (fun p => In (fst p) value_options) pairs ->
  In opt value_options ->
  ParseArguments sgn (argv0 :: option_arguments pairs ++ [opt]) Args_init
  = ParseArguments sgn (argv0 :: option_arguments pairs) Args_init
  /\ main sgn w (argv0 :: option_arguments pairs ++ [opt])
     = main sgn w (argv0 :: option_arguments pairs)
  /\ ParseArguments sgn [argv0; opt] Args_init = (Args_init, 0%N)
  /\ main sgn w [argv0; opt] = main sgn w [argv0].
Proof.
  intros Hp Ho.
  assert (P : ParseArguments sgn (argv0 :: option_arguments pairs ++ [opt])
                Args_init
              = ParseArguments sgn (argv0 :: option_arguments pairs) Args_init)
    by exact (ParseArguments_while_trailing_option sgn opt Ho pairs Args_init Hp).
  pose proof (ParseArguments_trailing_option sgn argv0 opt Args_init Ho) as Q.
  split; [exact P|].
  split; [unfold main; rewrite P; reflexivity|].
  split; [exact Q|].
  unfold main. rewrite Q. reflexivity.
Qed.

(** X16 with a trailing [-d] after an input file and a replaced character. *)
Lemma X16_trailing_option_without_value_witness :
  (Forall (fun p => In (fst p) value_options)
     [(txt "-i", txt "in.csv"); (txt "--replace-with-space", txt "tab")]
   /\ In (txt "-d") value_options)
  /\ ParseArguments true
       [txt "prog"; txt "-i"; txt "in.csv"; txt "--replace-with-space";
        txt "tab"; txt "-d"] Args_init
     = ParseArguments true
         [txt "prog"; txt "-i"; txt "in.csv"; txt "--replace-with-space";
          txt "tab"] Args_init
  /\ main true (mkWorld [] (fun _ => None) (fun _ => true))
       [txt "prog"; txt "-i"; txt "in.csv"; txt "--replace-with-space";
        txt "tab"; txt "-d"]
     = main true (mkWorld [] (fun _ => None) (fun _ => true))
         [txt "prog"; txt "-i"; txt "in.csv"; txt "--replace-with-space";
          txt "tab"]
  /\ ParseArguments true [txt "prog"; txt "-d"] Args_init = (Args_init, 0%N)
  /\ main true (mkWorld [] (fun _ => None) (fun _ => true))
       [txt "prog"; txt "-d"]
     = main true (mkWorld [] (fun _ => None) (fun _ => true)) [txt "prog"].
Proof.
  assert (H1 : Forall (fun p => In (fst p) value_options)
                 [(txt "-i", txt "in.csv");
                  (txt "--replace-with-space", txt "tab")]).
  { constructor; [do 2 right; left; reflexivity|].
    constructor; [do 7 right; left; reflexivity|constructor]. }
  assert (H2 : In (txt "-d") value_options) by (left; reflexivity).
  split; [exact (conj H1 H2)|].
  exact (X16_trailing_option_without_value true
           (mkWorld [] (fun _ => None) (fun _ => true)) (txt "prog")
           [(txt "-i", txt "in.csv"); (txt "--replace-with-space", txt "tab")]
           (txt "-d") H1 H2).
Defined.

(** X17: when [ParseArguments] does not return 0, also for [-h] and [-v],
    [main] returns 1 without converting anything: standard output stays
    empty, no output file is written, a message is on [std::cerr], and the
    input is not looked at. *)
Theorem X17_no_conversion_after_an_argument_error (sgn : bool) (w : World)
    (argv : list str) :
  snd (ParseArguments sgn argv Args_init) <> 0%N ->
  exists msg,
    msg <> []
    /\ main sgn w argv = Done (mkExit 1%N [] msg None).
Proof.
  intro H. unfold main.
  destruct (ParseArguments_result_aux sgn argv Args_init)
    as [[R _]|[R (msg & Hm & E)]]; [contradiction|].
  destruct (ParseArguments sgn argv Args_init) as [a r].
  cbn [fst snd] in *. subst r. cbn [N.eqb negb].
  exists msg. split; [exact Hm|]. rewrite E. reflexivity.
Qed.

(** X17 with the help option followed by an unknown argument. *)
Lemma X17_no_conversion_after_an_argument_error_witness :
  snd (ParseArguments true [txt "prog"; txt "-h"; txt "--bogus"] Args_init)
  <> 0%N
  /\ main true (mkWorld [txt "a,b"; txt "1,2"] (fun _ => None) (fun _ => true))
       [txt "prog"; txt "-h"; txt "--bogus"]
     = Done (mkExit 1%N [] Help_text None).
Proof.
  assert (H : snd (ParseArguments true [txt "prog"; txt "-h"; txt "--bogus"]
                     Args_init) <> 0%N) by (vm_compute; discriminate).
  split; [exact H|].
  destruct (X17_no_conversion_after_an_argument_error true
              (mkWorld [txt "a,b"; txt "1,2"] (fun _ => None) (fun _ => true))
              [txt "prog"; txt "-h"; txt "--bogus"] H) as (msg & _ & E).
  rewrite E. f_equal.
  apply (f_equal (fun r => match r with
                           | Done e => cerr_text e
                           | Undefined _ _ => []
                           end)) in E.
  cbn [cerr_text] in E. rewrite <- E. vm_compute. reflexivity.
Defined.





Lemma hash_of_ascii_word (s : str) :
  Forall (fun c => (N.of_nat (nat_of_ascii c) < 128)%N) s ->
  hash true s = hash false s.
Proof.
  intro H. induction H as [|c s Hc _ IH]; [reflexivity|].
  cbn [hash]. rewrite IH. unfold char_value.
  destruct (N.leb_spec 128 (N.of_nat (nat_of_ascii c))) as [Hge|_]; [lia|].
  reflexivity.
Qed.

Lemma hash_switch_of_ascii_word (s : str)
    (table : list (String.string * ascii)) :
  hash true s = hash false s ->
  Forall (fun e => hash true (txt (fst e)) = hash false (txt (fst e))) table ->
  hash_switch true s table = hash_switch false s table.
Proof.
  intros Hs Ht. induction Ht as [|[name c] table Hn _ IH]; [reflexivity|].
  cbn [hash_switch]. cbn [fst] in Hn. rewrite Hs, Hn, IH. reflexivity.
Qed.

(** X20: on words of 7-bit characters the hash does not depend on whether
    [char] is signed, and neither do the lookups of such words in the
    three name tables: on these words the command line is read the same
    way on every implementation. *)
Theorem X20_hash_of_ascii_words (s : str) :
  Forall (fun c => (N.of_nat (nat_of_ascii c) < 128)%N) s ->
  hash true s = hash false s
  /\ hash_switch true s delimiter_cases = hash_switch false s delimiter_cases
  /\ hash_switch true s replace_cases = hash_switch false s replace_cases
  /\ hash_switch true s erase_cases = hash_switch false s erase_cases.
Proof.
  intro H. pose proof (hash_of_ascii_word s H) as Hs.
  split; [exact Hs|].
  split; [|split]; apply hash_switch_of_ascii_word; try exact Hs;
    repeat constructor.
Qed.

(** X20 on the name of the tab. *)
Lemma X20_hash_of_ascii_words_witness :
  Forall (fun c => (N.of_nat (nat_of_ascii c) < 128)%N) (txt "tab")
  /\ hash true (txt "tab") = hash false (txt "tab")
  /\ hash_switch true (txt "tab") delimiter_cases
     = hash_switch false (txt "tab") delimiter_cases
  /\ hash_switch true (txt "tab") replace_cases
     = hash_switch false (txt "tab") replace_cases
  /\ hash_switch true (txt "tab") erase_cases
     = hash_switch false (txt "tab") erase_cases.
Proof.
  assert (H : Forall (fun c => (N.of_nat (nat_of_ascii c) < 128)%N) (txt "tab"))
    by (repeat constructor).
  split; [exact H|].
  exact (X20_hash_of_ascii_words (txt "tab") H).
Defined.
